(** * Figma-Context-MCP: the node simplifier

    A shallow embedding of [src/services/simplify-node-response.ts]
    ([convertColor], [parsePaint], [parseNode]) and the properties of it
    that the design document states.

    JavaScript Numbers are IEEE 754 binary64 values: they are modelled by
    Rocq's primitive [float], whose operations are the same binary64
    operations.  Exceptions are modelled by an error monad. *)

From Stdlib Require Import ZArith QArith Qround Bool List String Ascii DecimalString Lia Floats.
Import ListNotations.

Local Open Scope string_scope.
Local Open Scope Z_scope.

(* ================================================================== *)
(** * JavaScript runtime: exceptions *)
(* ================================================================== *)

(** What a [throw] carries.  [Error msg] is [new Error(msg)];
    [TypeError] is what the engine raises when a property is read from
    [undefined] (its message is engine-specific and left out). *)
Inductive exn : Type :=
| Error (message : string)
| TypeError.

Inductive result (A : Type) : Type :=
| Ok (value : A)
| Throw (e : exn).

Arguments Ok {A} value.
Arguments Throw {A} e.

Definition bind {A B : Type} (c : result A) (k : A -> result B) : result B :=
  match c with
  | Ok x => k x
  | Throw e => Throw e
  end.

Notation "x <- c ;; k" := (bind c (fun x => k))
  (at level 61, c at next level, right associativity).

(** [Array.prototype.map] with a callback that may throw: elements are
    visited in order and the first exception aborts the whole map. *)
Definition mapM {A B : Type} (f : A -> result B) : list A -> result (list B) :=
  fix go (l : list A) : result (list B) :=
    match l with
    | [] => Ok []
    | x :: rest =>
        y <- f x ;;
        ys <- go rest ;;
        Ok (y :: ys)
    end.

(* ================================================================== *)
(** * JavaScript runtime: Numbers *)
(* ================================================================== *)

Definition Number : Type := float.

(** Truthiness of a Number: every value but [0], [-0] and [NaN]. *)
Definition Number_truthy (x : Number) : bool :=
  negb (is_nan x || is_zero x).

(** [x !== 0] on Numbers. *)
Definition Number_strict_neq (x y : Number) : bool := negb (x =? y)%float.

(** The integral Numbers, which is what [Math.round], the bit operators
    and the sums of such values are.  An integer is kept as its exact
    value. *)
Inductive Integral : Type :=
| Int (n : Z)
| NegZero
| NotANumber
| Infinite (negative : bool).

(** The binary64 value nearest to an integer (ties to even); exact for
    every integer of magnitude at most 2^53. *)
Definition Z2SF (n : Z) : spec_float := binary_normalize prec emax n 0 false.

Definition Number_of_Z (n : Z) : Number := SF2Prim (Z2SF n).

Definition Number_of_Integral (i : Integral) : Number :=
  match i with
  | Int n => Number_of_Z n
  | NegZero => neg_zero
  | NotANumber => nan
  | Infinite false => infinity
  | Infinite true => neg_infinity
  end.

(** The exact value [(-1)^s * m * 2^e] of a finite float, rounded to an
    integer with ties toward +infinity: [floor (x + 1/2)]. *)
Definition round_half_up (s : bool) (m : positive) (e : Z) : Z :=
  let v := cond_Zopp s (Zpos m) in
  if 0 <=? e then v * 2 ^ e
  else (2 * v + 2 ^ (- e)) / 2 ^ (- e + 1).

(** [Math.round(x)]: NaN and the infinities are returned as they are,
    and so are the zeros; a value that rounds to zero keeps the sign of
    [x] ([Math.round(-0.2)] is [-0]). *)
Definition Math_round (x : Number) : Integral :=
  match Prim2SF x with
  | S754_nan => NotANumber
  | S754_infinity s => Infinite s
  | S754_zero s => if s then NegZero else Int 0
  | S754_finite s m e =>
      let n := round_half_up s m e in
      if (n =? 0) && s then NegZero else Int n
  end.

(** [ToInt32]: the integer modulo 2^32, read as a signed 32-bit value;
    NaN, the infinities and the zeros give 0. *)
Definition wrap32 (n : Z) : Z := (n + 2 ^ 31) mod 2 ^ 32 - 2 ^ 31.

Definition ToInt32 (i : Integral) : Z :=
  match i with
  | Int n => wrap32 n
  | _ => 0
  end.

(** [x << k]: the left operand through [ToInt32], the shift count taken
    modulo 32, the result a signed 32-bit integer. *)
Definition shl (x : Integral) (k : Z) : Integral :=
  Int (wrap32 (Z.shiftl (ToInt32 x) (k mod 32))).

(** The integral Number a binary64 value without a fractional part
    stands for. *)
Definition SF2Integral (x : spec_float) : Integral :=
  match x with
  | S754_zero s => if s then NegZero else Int 0
  | S754_infinity s => Infinite s
  | S754_nan => NotANumber
  | S754_finite s m e =>
      Int (if 0 <=? e then cond_Zopp s (Zpos m) * 2 ^ e
           else cond_Zopp s (Zpos m / 2 ^ (- e)))
  end.

(** An integer rounded to binary64. *)
Definition round64 (n : Z) : Integral := SF2Integral (Z2SF n).

(** [a + b] on integral Numbers: the exact sum, rounded to binary64. *)
Definition Number_add (a b : Integral) : Integral :=
  match a, b with
  | NotANumber, _ | _, NotANumber => NotANumber
  | Infinite s, Infinite t => if Bool.eqb s t then Infinite s else NotANumber
  | Infinite s, _ => Infinite s
  | _, Infinite t => Infinite t
  | NegZero, NegZero => NegZero
  | NegZero, Int n => Int n
  | Int m, NegZero => Int m
  | Int m, Int n => round64 (m + n)
  end.

(* ================================================================== *)
(** * JavaScript runtime: strings *)
(* ================================================================== *)

(** One digit of [Number.prototype.toString(16)]: lower case. *)
Definition hex_digit (d : Z) : ascii :=
  match d with
  | 0 => "0" | 1 => "1" | 2 => "2" | 3 => "3" | 4 => "4" | 5 => "5"
  | 6 => "6" | 7 => "7" | 8 => "8" | 9 => "9" | 10 => "a" | 11 => "b"
  | 12 => "c" | 13 => "d" | 14 => "e" | _ => "f"
  end%char.

(** The hexadecimal digits of a positive number, most significant first,
    in front of [acc]. *)
Fixpoint hex_of_pos (fuel : nat) (n : Z) (acc : string) : string :=
  match fuel with
  | O => acc
  | S fuel' =>
      let acc' := String (hex_digit (n mod 16)) acc in
      if n / 16 =? 0 then acc' else hex_of_pos fuel' (n / 16) acc'
  end.

Definition hex_of_nonneg (n : Z) : string :=
  hex_of_pos (S (Z.to_nat (Z.log2 n))) n "".

(** [x.toString(16)] for an integral Number. *)
Definition toString16 (x : Integral) : string :=
  match x with
  | Int n => if n <? 0 then "-" ++ hex_of_nonneg (- n) else hex_of_nonneg n
  | NegZero => "0"
  | NotANumber => "NaN"
  | Infinite false => "Infinity"
  | Infinite true => "-Infinity"
  end.

(** [s.slice(1)]. *)
Definition slice1 (s : string) : string :=
  match s with
  | EmptyString => EmptyString
  | String _ rest => rest
  end.

Definition upper_ascii (c : ascii) : ascii :=
  let n := nat_of_ascii c in
  if (Nat.leb 97 n && Nat.leb n 122)%bool then ascii_of_nat (n - 32) else c.

(** [s.toUpperCase()] (the strings here are ASCII). *)
Fixpoint toUpperCase (s : string) : string :=
  match s with
  | EmptyString => EmptyString
  | String c rest => String (upper_ascii c) (toUpperCase rest)
  end.

(* ================================================================== *)
(** * Colors *)
(* ================================================================== *)

Module RGBA.
Record t : Type := mk { r : Number; g : Number; b : Number; a : Number }.
End RGBA.

Module ColorValue.
Record t : Type := mk { hex : string; opacity : Number }.
End ColorValue.

(** [function convertColor(color: RGBA, opacity = 1): ColorValue].
    The default applies when the argument is [undefined]. *)
Definition convertColor (color : RGBA.t) (opacity : option Number) : ColorValue.t :=
  let opacity := match opacity with Some o => o | None => 1%float end in
  let r := Math_round (RGBA.r color * 255)%float in
  let g := Math_round (RGBA.g color * 255)%float in
  let b := Math_round (RGBA.b color * 255)%float in
  let a := (Number_of_Integral (Math_round (opacity * RGBA.a color * 100)%float) / 100)%float in
  let hex :=
    "#" ++ toUpperCase (slice1 (toString16
             (Number_add (Number_add (Number_add (shl (Int 1) 24) (shl r 16)) (shl g 8)) b))) in
  ColorValue.mk hex a.

Arguments convertColor : simpl never.
Arguments Math_round : simpl never.
Arguments Number_of_Integral : simpl never.

(* ================================================================== *)
(** * Paints *)
(* ================================================================== *)

Module Vector.
Record t : Type := mk { x : Number; y : Number }.
End Vector.

Module ColorStop.
Record t : Type := mk { position : Number; color : RGBA.t }.
End ColorStop.

(** A raw paint as [parsePaint] reads it: the tag, and the properties
    of every variant, each of which the record may or may not carry
    ([None] is [undefined]). *)
Module Paint.
Record t : Type := mk {
  type : string;
  color : option RGBA.t;
  opacity : option Number;
  imageRef : option string;
  scaleMode : option string;
  gradientHandlePositions : option (list Vector.t);
  gradientStops : option (list ColorStop.t)
}.
End Paint.

Module GradientStop.
Record t : Type := mk { position : Number; color : ColorValue.t }.
End GradientStop.

Module SimplifiedFill.
Record t : Type := mk {
  type : string;
  hex : option string;
  opacity : option Number;
  imageRef : option string;
  scaleMode : option string;
  gradientHandlePositions : option (list Vector.t);
  gradientStops : option (list GradientStop.t)
}.
End SimplifiedFill.

Definition gradient_kinds : list string :=
  ["GRADIENT_LINEAR"; "GRADIENT_RADIAL"; "GRADIENT_ANGULAR"; "GRADIENT_DIAMOND"].

(** [arr.includes(s)] on an array of strings. *)
Definition includes (arr : list string) (s : string) : bool :=
  existsb (String.eqb s) arr.

Definition unknown_paint (type : string) : exn :=
  Error ("Unknown paint type: " ++ type).

(** [function parsePaint(raw: Paint): SimplifiedFill].

    In the SOLID branch [raw.color!] is passed on unchecked, and
    [convertColor] starts by reading [color.r]: with no color that read
    raises a TypeError.  In the gradient branch [raw.gradientStops.map]
    raises one when there is no stop list. *)
Definition parsePaint (raw : Paint.t) : result SimplifiedFill.t :=
  if (Paint.type raw =? "IMAGE")%string then
    Ok {| SimplifiedFill.type := "IMAGE";
          SimplifiedFill.hex := None;
          SimplifiedFill.opacity := None;
          SimplifiedFill.imageRef := Paint.imageRef raw;
          SimplifiedFill.scaleMode := Paint.scaleMode raw;
          SimplifiedFill.gradientHandlePositions := None;
          SimplifiedFill.gradientStops := None |}
  else if (Paint.type raw =? "SOLID")%string then
    match Paint.color raw with
    | None => Throw TypeError
    | Some color =>
        let cv := convertColor color (Paint.opacity raw) in
        Ok {| SimplifiedFill.type := "SOLID";
              SimplifiedFill.hex := Some (ColorValue.hex cv);
              SimplifiedFill.opacity := Some (ColorValue.opacity cv);
              SimplifiedFill.imageRef := None;
              SimplifiedFill.scaleMode := None;
              SimplifiedFill.gradientHandlePositions := None;
              SimplifiedFill.gradientStops := None |}
    end
  else if includes gradient_kinds (Paint.type raw) then
    match Paint.gradientStops raw with
    | None => Throw TypeError
    | Some stops =>
        Ok {| SimplifiedFill.type := Paint.type raw;
              SimplifiedFill.hex := None;
              SimplifiedFill.opacity := None;
              SimplifiedFill.imageRef := None;
              SimplifiedFill.scaleMode := None;
              SimplifiedFill.gradientHandlePositions := Paint.gradientHandlePositions raw;
              SimplifiedFill.gradientStops :=
                Some (map (fun stop =>
                             {| GradientStop.position := ColorStop.position stop;
                                GradientStop.color := convertColor (ColorStop.color stop) None |})
                          stops) |}
    end
  else Throw (unknown_paint (Paint.type raw)).

(* ================================================================== *)
(** * Raw nodes *)
(* ================================================================== *)

(** A property of a raw node that [parseNode] tests at run time
    ([Array.isArray], [typeof ... === "number"]) before using it: it is
    absent, or holds a value of the tested type, or holds a value of
    some other type. *)
Inductive field (T : Type) : Type :=
| Undefined
| Of (value : T)
| Other.

Arguments Undefined {T}.
Arguments Of {T} value.
Arguments Other {T}.

Module TypeStyle.
Record t : Type := mk {
  fontFamily : option string;
  fontWeight : option Number;
  fontSize : option Number;
  lineHeightPx : option Number;
  letterSpacing : option Number;
  textCase : option string;
  textAlignHorizontal : option string;
  textAlignVertical : option string
}.
End TypeStyle.

(** The per-side stroke weights of a raw node, before the structural
    check. *)
Module RawStrokeWeights.
Record t : Type := mk {
  top : option Number;
  right : option Number;
  bottom : option Number;
  left : option Number
}.
End RawStrokeWeights.

Module Node.
#[local] Unset Elimination Schemes.
Inductive t : Type := mk {
  id : string;
  name : string;
  type : string;
  characters : option string;
  style : option TypeStyle.t;
  fills : field (list Paint.t);
  strokes : field (list Paint.t);
  strokeWeight : field Number;
  strokeDashes : field (list Number);
  individualStrokeWeights : option RawStrokeWeights.t;
  opacity : field Number;
  cornerRadius : field Number;
  children : option (list t)
}.
End Node.

(* ================================================================== *)
(** * Simplified nodes *)
(* ================================================================== *)

Module BoundingBox.
Record t : Type := mk { x : Number; y : Number; width : Number; height : Number }.
End BoundingBox.

Module TextStyle.
Record t : Type := mk {
  fontFamily : option string;
  fontWeight : option Number;
  fontSize : option Number;
  lineHeight : option string;
  letterSpacing : option string;
  textCase : option string;
  textAlignHorizontal : option string;
  textAlignVertical : option string
}.
End TextStyle.

Module StrokeWeights.
Record t : Type := mk { top : Number; right : Number; bottom : Number; left : Number }.
End StrokeWeights.

(** [SimplifiedNode]; [L] is the layout collaborator's [SimplifiedLayout]. *)
Module SimplifiedNode.
#[local] Unset Elimination Schemes.
Inductive t (L : Type) : Type := mk {
  id : string;
  name : string;
  type : string;
  boundingBox : option BoundingBox.t;
  text : option string;
  textStyle : option TextStyle.t;
  fill : option string;
  fills : option (list SimplifiedFill.t);
  strokes : option (list SimplifiedFill.t);
  opacity : option Number;
  borderRadius : option string;
  layout : option L;
  strokeWeight : option Number;
  strokeDashes : option (list Number);
  individualStrokeWeights : option StrokeWeights.t;
  children : option (list (t L))
}.
Arguments mk {L}.
Arguments id {L}.
Arguments name {L}.
Arguments type {L}.
Arguments boundingBox {L}.
Arguments text {L}.
Arguments textStyle {L}.
Arguments fill {L}.
Arguments fills {L}.
Arguments strokes {L}.
Arguments opacity {L}.
Arguments borderRadius {L}.
Arguments layout {L}.
Arguments strokeWeight {L}.
Arguments strokeDashes {L}.
Arguments individualStrokeWeights {L}.
Arguments children {L}.
End SimplifiedNode.

(* ================================================================== *)
(** * The helpers of [~/utils/identity] *)
(* ================================================================== *)

(** Modelled from the spec: [hasValue(key, obj)] of [~/utils/identity],
    which is not part of the sources at hand.  The design document has an
    attribute extracted only if "the source field exists"; so the test
    holds when the property is not [undefined]. *)
Definition hasValue {T : Type} (v : option T) : bool :=
  match v with Some _ => true | None => false end.

(** Modelled from the spec: [hasValue(key, obj)] on a property that is
    tested at run time afterwards; it holds of any value but
    [undefined]. *)
Definition hasValue_field {T : Type} (v : field T) : bool :=
  match v with Undefined => false | _ => true end.

(** Modelled from the spec: [hasValue(key, obj, typeGuard)], which holds
    when the property has a value that passes the guard. *)
Definition hasValue_guard {T : Type} (typeGuard : T -> bool) (v : option T) : bool :=
  match v with Some x => typeGuard x | None => false end.

(** Modelled from the spec: [isTruthy] of [~/utils/identity]; on text
    content, "a present-but-empty string is treated as absent". *)
Definition isTruthy (s : string) : bool :=
  match s with EmptyString => false | _ => true end.

(** Modelled from the spec: [isStrokeWeights] of [~/utils/identity]:
    "all four sides present and numeric". *)
Definition isStrokeWeights (w : RawStrokeWeights.t) : bool :=
  hasValue (RawStrokeWeights.top w) && hasValue (RawStrokeWeights.right w)
  && hasValue (RawStrokeWeights.bottom w) && hasValue (RawStrokeWeights.left w).

(** [Array.isArray(v)] and [typeof v === "number"] on a tested property. *)
Definition Array_isArray {T : Type} (v : field (list T)) : bool :=
  match v with Of _ => true | _ => false end.

Definition typeof_number (v : field Number) : bool :=
  match v with Of _ => true | _ => false end.

(** Truthiness of an optional Number ([undefined] is falsy). *)
Definition truthy (v : option Number) : bool :=
  match v with Some x => Number_truthy x | None => false end.

(** [v !== 0] on an optional Number ([undefined !== 0] holds). *)
Definition strict_neq_zero (v : option Number) : bool :=
  match v with Some x => Number_strict_neq x 0%float | None => true end.

(* ================================================================== *)
(** * The node transformer *)
(* ================================================================== *)


Section Transformer.

(** The layout collaborator [buildSimplifiedLayout] of
    [~/transformers/layout], with its result type, and the decimal
    rendering of a Number in a template literal ([Number::toString]);
    the transformer only passes their results on. *)
Variable SimplifiedLayout : Type.
Variable buildSimplifiedLayout : Node.t -> option Node.t -> SimplifiedLayout.
Variable Number_toString : Number -> string.

(** The [textStyle] object literal of [parseNode]. *)
Definition parseStyle (style : TypeStyle.t) : TextStyle.t :=
  {| TextStyle.fontFamily := TypeStyle.fontFamily style;
     TextStyle.fontWeight := TypeStyle.fontWeight style;
     TextStyle.fontSize := TypeStyle.fontSize style;
     TextStyle.lineHeight :=
       if truthy (TypeStyle.lineHeightPx style) && truthy (TypeStyle.fontSize style)
       then match TypeStyle.lineHeightPx style, TypeStyle.fontSize style with
            | Some lineHeightPx, Some fontSize =>
                Some (Number_toString (lineHeightPx / fontSize)%float ++ "em")
            | _, _ => None
            end
       else None;
     TextStyle.letterSpacing :=
       if truthy (TypeStyle.letterSpacing style)
          && strict_neq_zero (TypeStyle.letterSpacing style)
          && truthy (TypeStyle.fontSize style)
       then match TypeStyle.letterSpacing style, TypeStyle.fontSize style with
            | Some letterSpacing, Some fontSize =>
                Some (Number_toString ((letterSpacing / fontSize) * 100)%float ++ "%")
            | _, _ => None
            end
       else None;
     TextStyle.textCase := TypeStyle.textCase style;
     TextStyle.textAlignHorizontal := TypeStyle.textAlignHorizontal style;
     TextStyle.textAlignVertical := TypeStyle.textAlignVertical style |}.

(** The [fills] and [strokes] statements: [n.fills.map(parsePaint)]
    when the property has a value and is an array. *)
Definition parsePaints (v : field (list Paint.t)) : result (option (list SimplifiedFill.t)) :=
  if hasValue_field v && Array_isArray v then
    match v with
    | Of paints => fs <- mapM parsePaint paints ;; Ok (Some fs)
    | _ => Ok None
    end
  else Ok None.

(** [simplified.strokes?.length] as a condition. *)
Definition strokes_length_truthy (strokes : option (list SimplifiedFill.t)) : bool :=
  match strokes with
  | Some l => negb (Nat.eqb (List.length l) 0)
  | None => false
  end.

(** [function parseNode(n, parent?): SimplifiedNode].  The statements
    that assign the optional attributes of [simplified] are taken in
    the order of the source; an exception of [parsePaint] or of a
    child's [parseNode] leaves the function at once. *)
Fixpoint parseNode (n : Node.t) (parent : option Node.t) {struct n}
  : result (SimplifiedNode.t SimplifiedLayout) :=
  (* text *)
  let text :=
    if hasValue_guard isTruthy (Node.characters n) then Node.characters n else None in
  let textStyle :=
    if hasValue (Node.style n) then option_map parseStyle (Node.style n) else None in
  (* fills & strokes *)
  fills <- parsePaints (Node.fills n) ;;
  strokes <- parsePaints (Node.strokes n) ;;
  (* border/corner *)
  let strokeWeight :=
    if hasValue_field (Node.strokeWeight n)
       && typeof_number (Node.strokeWeight n)
       && strokes_length_truthy strokes
    then match Node.strokeWeight n with Of w => Some w | _ => None end
    else None in
  let strokeDashes :=
    if hasValue_field (Node.strokeDashes n) && Array_isArray (Node.strokeDashes n)
    then match Node.strokeDashes n with Of d => Some d | _ => None end
    else None in
  let individualStrokeWeights :=
    if hasValue_guard isStrokeWeights (Node.individualStrokeWeights n) then
      match Node.individualStrokeWeights n with
      | Some (RawStrokeWeights.mk (Some wt) (Some wr) (Some wb) (Some wl)) =>
          Some (StrokeWeights.mk wt wr wb wl)
      | _ => None
      end
    else None in
  (* opacity *)
  let opacity :=
    if hasValue_field (Node.opacity n) && typeof_number (Node.opacity n)
    then match Node.opacity n with Of o => Some o | _ => None end
    else None in
  let borderRadius :=
    if hasValue_field (Node.cornerRadius n) && typeof_number (Node.cornerRadius n)
    then match Node.cornerRadius n with
         | Of cornerRadius => Some (Number_toString cornerRadius ++ "px")
         | _ => None
         end
    else None in
  (* layout data *)
  let layout := Some (buildSimplifiedLayout n parent) in
  (* children - pass the current node as parent *)
  children <-
    match Node.children n with
    | Some cs =>
        if negb (Nat.eqb (List.length cs) 0)
        then kids <- mapM (fun child => parseNode child (Some n)) cs ;; Ok (Some kids)
        else Ok None
    | None => Ok None
    end ;;
  Ok {| SimplifiedNode.id := Node.id n;
        SimplifiedNode.name := Node.name n;
        SimplifiedNode.type := Node.type n;
        SimplifiedNode.boundingBox := None;
        SimplifiedNode.text := text;
        SimplifiedNode.textStyle := textStyle;
        SimplifiedNode.fill := None;
        SimplifiedNode.fills := fills;
        SimplifiedNode.strokes := strokes;
        SimplifiedNode.opacity := opacity;
        SimplifiedNode.borderRadius := borderRadius;
        SimplifiedNode.layout := layout;
        SimplifiedNode.strokeWeight := strokeWeight;
        SimplifiedNode.strokeDashes := strokeDashes;
        SimplifiedNode.individualStrokeWeights := individualStrokeWeights;
        SimplifiedNode.children := children |}.

(** The recursive step of [parseNode], on its own. *)
Definition parseChildren (n : Node.t)
  : result (option (list (SimplifiedNode.t SimplifiedLayout))) :=
  match Node.children n with
  | Some cs =>
      if negb (Nat.eqb (List.length cs) 0)
      then kids <- mapM (fun child => parseNode child (Some n)) cs ;; Ok (Some kids)
      else Ok None
  | None => Ok None
  end.

(** The node [parseNode] returns, given its normalized fills and
    strokes and its transformed children, with the guards of the
    attributes resolved. *)
Definition simplified (n : Node.t) (parent : option Node.t)
    (fills strokes : option (list SimplifiedFill.t))
    (children : option (list (SimplifiedNode.t SimplifiedLayout)))
  : SimplifiedNode.t SimplifiedLayout :=
  {| SimplifiedNode.id := Node.id n;
     SimplifiedNode.name := Node.name n;
     SimplifiedNode.type := Node.type n;
     SimplifiedNode.boundingBox := None;
     SimplifiedNode.text :=
       match Node.characters n with
       | Some characters => if isTruthy characters then Some characters else None
       | None => None
       end;
     SimplifiedNode.textStyle := option_map parseStyle (Node.style n);
     SimplifiedNode.fill := None;
     SimplifiedNode.fills := fills;
     SimplifiedNode.strokes := strokes;
     SimplifiedNode.opacity :=
       match Node.opacity n with Of o => Some o | _ => None end;
     SimplifiedNode.borderRadius :=
       match Node.cornerRadius n with
       | Of cornerRadius => Some (Number_toString cornerRadius ++ "px")
       | _ => None
       end;
     SimplifiedNode.layout := Some (buildSimplifiedLayout n parent);
     SimplifiedNode.strokeWeight :=
       match Node.strokeWeight n with
       | Of w => if strokes_length_truthy strokes then Some w else None
       | _ => None
       end;
     SimplifiedNode.strokeDashes :=
       match Node.strokeDashes n with Of d => Some d | _ => None end;
     SimplifiedNode.individualStrokeWeights :=
       match Node.individualStrokeWeights n with
       | Some (RawStrokeWeights.mk (Some wt) (Some wr) (Some wb) (Some wl)) =>
           Some (StrokeWeights.mk wt wr wb wl)
       | _ => None
       end;
     SimplifiedNode.children := children |}.

(** The design document's reading of the fills rule: [fills] is present
    only if the source property is a non-empty list. *)
Definition fills_only_from_nonempty (n : Node.t)
    (s : SimplifiedNode.t SimplifiedLayout) : Prop :=
  SimplifiedNode.fills s <> None ->
  exists paints, Node.fills n = Of paints /\ paints <> [].

(** The design document's presence invariant: each optional attribute
    that is read from the source is present if and only if its source
    data is present and of the tested type. *)
Definition present_iff_source (n : Node.t)
    (s : SimplifiedNode.t SimplifiedLayout) : Prop :=
  (SimplifiedNode.text s <> None <-> Node.characters n <> None)
  /\ (SimplifiedNode.textStyle s <> None <-> Node.style n <> None)
  /\ (SimplifiedNode.fills s <> None <-> exists paints, Node.fills n = Of paints)
  /\ (SimplifiedNode.strokes s <> None <-> exists paints, Node.strokes n = Of paints)
  /\ (SimplifiedNode.strokeWeight s <> None <-> exists w, Node.strokeWeight n = Of w)
  /\ (SimplifiedNode.strokeDashes s <> None <-> exists d, Node.strokeDashes n = Of d)
  /\ (SimplifiedNode.individualStrokeWeights s <> None
      <-> exists w, Node.individualStrokeWeights n = Some w
                    /\ isStrokeWeights w = true)
  /\ (SimplifiedNode.opacity s <> None <-> exists o, Node.opacity n = Of o)
  /\ (SimplifiedNode.borderRadius s <> None <-> exists c, Node.cornerRadius n = Of c)
  /\ (SimplifiedNode.children s <> None <-> Node.children n <> None).

End Transformer.

(* ================================================================== *)
(** * Specification vocabulary *)
(* ================================================================== *)

(** The tags [parsePaint] has a branch for. *)
Definition recognized_kinds : list string :=
  ["IMAGE"; "SOLID";
   "GRADIENT_LINEAR"; "GRADIENT_RADIAL"; "GRADIENT_ANGULAR"; "GRADIENT_DIAMOND"].

(** An operand from which no derived text-style field is computed: it
    is missing, or it is a zero or NaN. *)
Definition unusable (v : option Number) : Prop :=
  match v with
  | None => True
  | Some x => is_zero x = true \/ is_nan x = true
  end.

(** A Number that is neither a zero nor NaN. *)
Definition usable (x : Number) : Prop :=
  is_zero x = false /\ is_nan x = false.

(** The design document's rule for the derived text-style fields: the
    line height is omitted only if one of its operands is missing, the
    letter spacing only if it is missing or exactly 0 or the font size
    is missing; otherwise the field is the quotient with its suffix. *)
Definition derived_as_stated (Number_toString : Number -> string)
    (style : TypeStyle.t) (ts : TextStyle.t) : Prop :=
  TextStyle.lineHeight ts
  = match TypeStyle.lineHeightPx style, TypeStyle.fontSize style with
    | Some px, Some size => Some (Number_toString (px / size)%float ++ "em")
    | _, _ => None
    end
  /\ TextStyle.letterSpacing ts
     = match TypeStyle.letterSpacing style, TypeStyle.fontSize style with
       | Some sp, Some size =>
           if (sp =? 0)%float then None
           else Some (Number_toString ((sp / size) * 100)%float ++ "%")
       | _, _ => None
       end.

(** The exception a computation ends with, if any. *)
Definition thrown {A : Type} (c : result A) : option exn :=
  match c with Ok _ => None | Throw e => Some e end.

(** The first exception of two computations run one after the other. *)
Definition or_else (a b : option exn) : option exn :=
  match a with Some e => Some e | None => b end.

(** The normalized paint list a tested property gives rise to. *)
Definition normalized_from (v : field (list Paint.t))
    (out : option (list SimplifiedFill.t)) : Prop :=
  match v with
  | Of paints =>
      exists fs, out = Some fs /\ Forall2 (fun p f => parsePaint p = Ok f) paints fs
  | _ => out = None
  end.

(** Induction on raw trees: a property holds of every node if it holds
    of a node whenever it holds of the node's children. *)
Section NodeInduction.

Variable P : Node.t -> Prop.

Hypothesis step :
  forall n : Node.t,
    match Node.children n with Some cs => Forall P cs | None => True end ->
    P n.

Fixpoint Node_induction (n : Node.t) : P n :=
  match n with
  | Node.mk i nm ty ch st fi sk sw sd isw op cr kids =>
      step (Node.mk i nm ty ch st fi sk sw sd isw op cr kids)
        (match kids
               return match kids with Some cs => Forall P cs | None => True end
         with
         | Some cs =>
             (fix all (l : list Node.t) : Forall P l :=
                match l with
                | [] => Forall_nil P
                | c :: rest => Forall_cons c (Node_induction c) (all rest)
                end) cs
         | None => I
         end)
  end.

End NodeInduction.

(** The paints of a tested property, when it is an array. *)
Definition paints_of (v : field (list Paint.t)) : list Paint.t :=
  match v with Of paints => paints | _ => [] end.

(** The paints of a tree in the order [parseNode] meets them: the
    node's fills, its strokes, then the paints of each child in turn. *)
Fixpoint all_paints (n : Node.t) : list Paint.t :=
  (paints_of (Node.fills n) ++ paints_of (Node.strokes n)
   ++ match Node.children n with
      | Some cs => flat_map all_paints cs
      | None => []
      end)%list.

(** [paint_in p n]: the paint [p] is among the fills or the strokes of
    [n] or of a node below [n], at any depth. *)
Inductive paint_in (p : Paint.t) : Node.t -> Prop :=
| paint_in_fills (n : Node.t) (paints : list Paint.t) :
    Node.fills n = Of paints -> In p paints -> paint_in p n
| paint_in_strokes (n : Node.t) (paints : list Paint.t) :
    Node.strokes n = Of paints -> In p paints -> paint_in p n
| paint_in_child (n child : Node.t) (cs : list Node.t) :
    Node.children n = Some cs -> In child cs -> paint_in p child -> paint_in p n.

(** A Number between 0 and 1, by the comparisons of binary64. *)
Definition unit_interval (x : Number) : Prop :=
  (0 <=? x)%float = true /\ (x <=? 1)%float = true.

(** The exact value of a finite Number, as a rational. *)
Definition finite_value (s : bool) (m : positive) (e : Z) : Q :=
  if 0 <=? e then inject_Z (cond_Zopp s (Zpos m) * 2 ^ e)
  else Qmake (cond_Zopp s (Zpos m)) (Z.to_pos (2 ^ (- e))).

Definition Number_value (x : Number) : option Q :=
  match Prim2SF x with
  | S754_zero _ => Some 0%Q
  | S754_finite s m e => Some (finite_value s m e)
  | _ => None
  end.

(** Rounding to the nearest integer, a half going up. *)
Definition half_up (q : Q) : Z := Qfloor (q + (1 # 2)).

(** A color channel scaled to 0..255: [x * 255], rounded half up. *)
Definition scaled_channel (x : Number) : Z :=
  match Number_value (x * 255)%float with
  | Some q => half_up q
  | None => 0
  end.

Definition HEX_digit (d : Z) : ascii :=
  match d with
  | 0 => "0" | 1 => "1" | 2 => "2" | 3 => "3" | 4 => "4" | 5 => "5"
  | 6 => "6" | 7 => "7" | 8 => "8" | 9 => "9" | 10 => "A" | 11 => "B"
  | 12 => "C" | 13 => "D" | 14 => "E" | _ => "F"
  end%char.

(** Two upper-case hexadecimal digits, zero-padded. *)
Definition hex2 (n : Z) : string :=
  String (HEX_digit (n / 16)) (String (HEX_digit (n mod 16)) "").

(** The integer nearest to [y], a half going up, as a Number.  A zero
    result keeps the sign of [y]; NaN and the infinities are left as
    they are. *)
Definition nearest_integer (y : Number) : Number :=
  match Number_value y with
  | Some q =>
      if (half_up q =? 0) && get_sign y then neg_zero else Number_of_Z (half_up q)
  | None => y
  end.

(** [x] rounded to two decimal places: the integer nearest to [x * 100],
    over 100. *)
Definition round_to_hundredths (x : Number) : Number :=
  (nearest_integer (x * 100) / 100)%float.

(** The round and sticky bits of a shifted mantissa, together. *)
Definition sticky (x : shr_record) : bool := shr_r x || shr_s x.

(* ================================================================== *)
(** * Sample collaborators, paints and trees *)
(* ================================================================== *)

Definition emoji_paint : Paint.t :=
  Paint.mk "EMOJI" None None None None None None.

Definition three_stops : list ColorStop.t :=
  [ ColorStop.mk 0 (RGBA.mk 1 0 0 1);
    ColorStop.mk 0.5 (RGBA.mk 0 1 0 1);
    ColorStop.mk 1 (RGBA.mk 0 0 1 0.5) ]%float.

Definition linear_gradient : Paint.t :=
  Paint.mk "GRADIENT_LINEAR" None None None None
           (Some [Vector.mk 0 0.5; Vector.mk 1 0.5; Vector.mk 0 1]%float)
           (Some three_stops).

Definition solid_without_color : Paint.t :=
  Paint.mk "SOLID" None (Some 0.5%float) None None None None.

Definition solid_red : Paint.t :=
  Paint.mk "SOLID" (Some (RGBA.mk 1 0 0 1)%float) None None None None None.

(** A layout collaborator for the examples: it reports the id of the
    parent it was handed. *)
Definition parent_id (n : Node.t) (parent : option Node.t) : option string :=
  option_map Node.id parent.

Fixpoint fraction_digits (fuel : nat) (num den : Z) : string :=
  match fuel with
  | O => ""
  | S fuel' =>
      if num =? 0 then ""
      else NilZero.string_of_uint (N.to_uint (Z.to_N (num * 10 / den)))
           ++ fraction_digits fuel' (num * 10 mod den) den
  end.

(** A rendering of Numbers for the examples: the exact decimal expansion
    of a finite value.  On the Numbers of the examples (8, 1.5, ...) it
    is what [Number::toString] gives. *)
Definition exact_decimal (x : Number) : string :=
  match Prim2SF x with
  | S754_nan => "NaN"
  | S754_infinity s => if s then "-Infinity" else "Infinity"
  | S754_zero _ => "0"
  | S754_finite s m e =>
      (if s then "-" else "")
      ++ (if 0 <=? e then NilZero.string_of_uint (N.to_uint (Z.to_N (Zpos m * 2 ^ e)))
          else NilZero.string_of_uint (N.to_uint (Z.to_N (Zpos m / 2 ^ (- e))))
               ++ (if Zpos m mod 2 ^ (- e) =? 0 then ""
                   else "." ++ fraction_digits (Z.to_nat (- e))
                                               (Zpos m mod 2 ^ (- e)) (2 ^ (- e))))
  end.

Definition sample_parse : Node.t -> option Node.t -> result (SimplifiedNode.t (option string)) :=
  parseNode (option string) parent_id exact_decimal.

Definition title_style : TypeStyle.t :=
  TypeStyle.mk (Some "Inter") (Some 400%float) (Some 16%float) (Some 24%float)
               (Some 0%float) None (Some "LEFT") None.

Definition solid_black : Paint.t :=
  Paint.mk "SOLID" (Some (RGBA.mk 0 0 0 1)%float) None None None None None.

(** A text node: characters "Hi", font size 16, line height 24px. *)
Definition title_node : Node.t :=
  Node.mk "1:2" "Title" "TEXT" (Some "Hi") (Some title_style)
          (Of [solid_black]) Undefined Undefined Undefined None
          Undefined Undefined None.

(** A frame with a fill, a stroke of weight 2, and the text node below. *)
Definition card_node : Node.t :=
  Node.mk "1:1" "Card" "FRAME" None None
          (Of [solid_red]) (Of [solid_black]) (Of 2%float) (Of []) None
          (Of 0.5%float) (Of 8%float) (Some [title_node]).

Definition solid_fill (hex : string) (opacity : Number) : SimplifiedFill.t :=
  SimplifiedFill.mk "SOLID" (Some hex) (Some opacity) None None None None.

Definition title_simplified : SimplifiedNode.t (option string) :=
  {| SimplifiedNode.id := "1:2";
     SimplifiedNode.name := "Title";
     SimplifiedNode.type := "TEXT";
     SimplifiedNode.boundingBox := None;
     SimplifiedNode.text := Some "Hi";
     SimplifiedNode.textStyle :=
       Some (TextStyle.mk (Some "Inter") (Some 400%float) (Some 16%float)
                          (Some "1.5em") None None (Some "LEFT") None);
     SimplifiedNode.fill := None;
     SimplifiedNode.fills := Some [solid_fill "#000000" 1%float];
     SimplifiedNode.strokes := None;
     SimplifiedNode.opacity := None;
     SimplifiedNode.borderRadius := None;
     SimplifiedNode.layout := Some (Some "1:1");
     SimplifiedNode.strokeWeight := None;
     SimplifiedNode.strokeDashes := None;
     SimplifiedNode.individualStrokeWeights := None;
     SimplifiedNode.children := None |}.

Definition card_simplified : SimplifiedNode.t (option string) :=
  {| SimplifiedNode.id := "1:1";
     SimplifiedNode.name := "Card";
     SimplifiedNode.type := "FRAME";
     SimplifiedNode.boundingBox := None;
     SimplifiedNode.text := None;
     SimplifiedNode.textStyle := None;
     SimplifiedNode.fill := None;
     SimplifiedNode.fills := Some [solid_fill "#FF0000" 1%float];
     SimplifiedNode.strokes := Some [solid_fill "#000000" 1%float];
     SimplifiedNode.opacity := Some 0.5%float;
     SimplifiedNode.borderRadius := Some "8px";
     SimplifiedNode.layout := Some None;
     SimplifiedNode.strokeWeight := Some 2%float;
     SimplifiedNode.strokeDashes := Some [];
     SimplifiedNode.individualStrokeWeights := None;
     SimplifiedNode.children := Some [title_simplified] |}.

(** A node whose fills are an empty array. *)
Definition empty_fills_node : Node.t :=
  Node.mk "2:1" "Spacer" "RECTANGLE" None None (Of []) Undefined Undefined
          Undefined None Undefined Undefined None.

Definition empty_fills_simplified : SimplifiedNode.t (option string) :=
  {| SimplifiedNode.id := "2:1";
     SimplifiedNode.name := "Spacer";
     SimplifiedNode.type := "RECTANGLE";
     SimplifiedNode.boundingBox := None;
     SimplifiedNode.text := None;
     SimplifiedNode.textStyle := None;
     SimplifiedNode.fill := None;
     SimplifiedNode.fills := Some [];
     SimplifiedNode.strokes := None;
     SimplifiedNode.opacity := None;
     SimplifiedNode.borderRadius := None;
     SimplifiedNode.layout := Some None;
     SimplifiedNode.strokeWeight := None;
     SimplifiedNode.strokeDashes := None;
     SimplifiedNode.individualStrokeWeights := None;
     SimplifiedNode.children := None |}.

(** A node with a numeric stroke weight and no strokes, and with empty
    text content. *)
Definition bare_weight_node : Node.t :=
  Node.mk "3:1" "Line" "VECTOR" (Some "") None Undefined Undefined (Of 2%float)
          Undefined None Undefined Undefined None.

Definition bare_weight_simplified : SimplifiedNode.t (option string) :=
  {| SimplifiedNode.id := "3:1";
     SimplifiedNode.name := "Line";
     SimplifiedNode.type := "VECTOR";
     SimplifiedNode.boundingBox := None;
     SimplifiedNode.text := None;
     SimplifiedNode.textStyle := None;
     SimplifiedNode.fill := None;
     SimplifiedNode.fills := None;
     SimplifiedNode.strokes := None;
     SimplifiedNode.opacity := None;
     SimplifiedNode.borderRadius := None;
     SimplifiedNode.layout := Some None;
     SimplifiedNode.strokeWeight := None;
     SimplifiedNode.strokeDashes := None;
     SimplifiedNode.individualStrokeWeights := None;
     SimplifiedNode.children := None |}.

(** A text node whose style has font size 0, with a line height and a
    letter spacing. *)
Definition zero_font_style : TypeStyle.t :=
  TypeStyle.mk (Some "Inter") (Some 400%float) (Some 0%float) (Some 24%float)
               (Some 1%float) None None None.

Definition zero_font_node : Node.t :=
  Node.mk "6:1" "Caption" "TEXT" (Some "Hi") (Some zero_font_style)
          Undefined Undefined Undefined Undefined None Undefined Undefined None.

Definition zero_font_simplified : SimplifiedNode.t (option string) :=
  {| SimplifiedNode.id := "6:1";
     SimplifiedNode.name := "Caption";
     SimplifiedNode.type := "TEXT";
     SimplifiedNode.boundingBox := None;
     SimplifiedNode.text := Some "Hi";
     SimplifiedNode.textStyle :=
       Some (TextStyle.mk (Some "Inter") (Some 400%float) (Some 0%float)
                          None None None None None);
     SimplifiedNode.fill := None;
     SimplifiedNode.fills := None;
     SimplifiedNode.strokes := None;
     SimplifiedNode.opacity := None;
     SimplifiedNode.borderRadius := None;
     SimplifiedNode.layout := Some None;
     SimplifiedNode.strokeWeight := None;
     SimplifiedNode.strokeDashes := None;
     SimplifiedNode.individualStrokeWeights := None;
     SimplifiedNode.children := None |}.

(** A tree with an unrecognized paint two levels down. *)
Definition emoji_leaf : Node.t :=
  Node.mk "4:3" "Sticker" "RECTANGLE" None None Undefined (Of [solid_red; emoji_paint])
          Undefined Undefined None Undefined Undefined None.

Definition emoji_tree : Node.t :=
  Node.mk "4:1" "Page" "CANVAS" None None (Of [solid_black]) Undefined Undefined
          Undefined None Undefined Undefined
          (Some [title_node;
                 Node.mk "4:2" "Group" "GROUP" None None Undefined Undefined Undefined
                         Undefined None Undefined Undefined (Some [emoji_leaf])]).

(** A node whose first stroke is a SOLID paint without color, followed
    by a paint with an unrecognized tag. *)
Definition malformed_first_node : Node.t :=
  Node.mk "5:1" "Badge" "ELLIPSE" None None Undefined
          (Of [solid_without_color; emoji_paint])
          Undefined Undefined None Undefined Undefined None.

(* ================================================================== *)
(** * The response parsers *)
(* ================================================================== *)

(** The root of a file response; only its children are read. *)
Module DocumentNode.
Record t : Type := mk { children : list Node.t }.
End DocumentNode.

(** [GetFileResponse], as [parseFigmaFileResponse] reads it. *)
Module GetFileResponse.
Record t : Type := mk {
  name : string;
  lastModified : string;
  thumbnailUrl : option string;
  document : DocumentNode.t
}.
End GetFileResponse.

(** One value of the [nodes] object of a [GetFileNodesResponse]. *)
Module NodeEntry.
Record t : Type := mk { document : Node.t }.
End NodeEntry.

(** [GetFileNodesResponse], as [parseFigmaResponse] reads it.  The
    [nodes] object is given by its own properties, key and value, in the
    order in which the engine enumerates them. *)
Module GetFileNodesResponse.
Record t : Type := mk {
  name : string;
  lastModified : string;
  thumbnailUrl : option string;
  nodes : list (string * NodeEntry.t)
}.
End GetFileNodesResponse.

(** [SimplifiedDesign]; [thumbnailUrl] is [None] when the property
    holds [undefined]. *)
Module SimplifiedDesign.
Record t (L : Type) : Type := mk {
  name : string;
  lastModified : string;
  thumbnailUrl : option string;
  nodes : list (SimplifiedNode.t L)
}.
Arguments mk {L}.
Arguments name {L}.
Arguments lastModified {L}.
Arguments thumbnailUrl {L}.
Arguments nodes {L}.
End SimplifiedDesign.

(** [Object.values(o)] on an object given by its properties in
    enumeration order. *)
Definition Object_values {V : Type} (o : list (string * V)) : list V :=
  map snd o.

(** [s || d] on an optional string: [undefined] and the empty string
    are falsy. *)
Definition string_or (s : option string) (d : string) : string :=
  match s with
  | Some (String c rest) => String c rest
  | _ => d
  end.

Section ResponseParsers.

Variable SimplifiedLayout : Type.
Variable buildSimplifiedLayout : Node.t -> option Node.t -> SimplifiedLayout.
Variable Number_toString : Number -> string.

(** [function parseFigmaFileResponse(data: GetFileResponse)].
    [Object.values] of the array [document.children] is the array; the
    callback hands [parseNode] the node alone, so [parent] is
    [undefined]. *)
Definition parseFigmaFileResponse (data : GetFileResponse.t)
  : result (SimplifiedDesign.t SimplifiedLayout) :=
  simplifiedNodes <-
    mapM (fun n => parseNode SimplifiedLayout buildSimplifiedLayout Number_toString n None)
         (DocumentNode.children (GetFileResponse.document data)) ;;
  Ok {| SimplifiedDesign.name := GetFileResponse.name data;
        SimplifiedDesign.lastModified := GetFileResponse.lastModified data;
        SimplifiedDesign.thumbnailUrl :=
          Some (string_or (GetFileResponse.thumbnailUrl data) "");
        SimplifiedDesign.nodes := simplifiedNodes |}.

(** [function parseFigmaResponse(data: GetFileNodesResponse)]. *)
Definition parseFigmaResponse (data : GetFileNodesResponse.t)
  : result (SimplifiedDesign.t SimplifiedLayout) :=
  simplifiedNodes <-
    mapM (fun n => parseNode SimplifiedLayout buildSimplifiedLayout Number_toString
                             (NodeEntry.document n) None)
         (Object_values (GetFileNodesResponse.nodes data)) ;;
  Ok {| SimplifiedDesign.name := GetFileNodesResponse.name data;
        SimplifiedDesign.lastModified := GetFileNodesResponse.lastModified data;
        SimplifiedDesign.thumbnailUrl := GetFileNodesResponse.thumbnailUrl data;
        SimplifiedDesign.nodes := simplifiedNodes |}.

(** The layouts a tree asks of the collaborator, in document order:
    the node's own, with the parent it was given, then those of each
    child with the node as parent. *)
Fixpoint expected_layouts (n : Node.t) (parent : option Node.t)
  : list SimplifiedLayout :=
  buildSimplifiedLayout n parent
  :: match Node.children n with
     | Some cs => flat_map (fun child => expected_layouts child (Some n)) cs
     | None => []
     end.

End ResponseParsers.

(* ================================================================== *)
(** * Specification vocabulary: trees and colors *)
(* ================================================================== *)

(** Identifier, name and type of every node of a raw tree, in document
    order (a node, then its children from left to right). *)
Fixpoint node_labels (n : Node.t) : list (string * string * string) :=
  (Node.id n, Node.name n, Node.type n)
  :: match Node.children n with
     | Some cs => flat_map node_labels cs
     | None => []
     end.

(** The same for a simplified tree. *)
Fixpoint simplified_labels {L : Type} (s : SimplifiedNode.t L)
  : list (string * string * string) :=
  (SimplifiedNode.id s, SimplifiedNode.name s, SimplifiedNode.type s)
  :: match SimplifiedNode.children s with
     | Some ks => flat_map simplified_labels ks
     | None => []
     end.

(** The layout attributes of a simplified tree, in document order. *)
Fixpoint simplified_layouts {L : Type} (s : SimplifiedNode.t L) : list (option L) :=
  SimplifiedNode.layout s
  :: match SimplifiedNode.children s with
     | Some ks => flat_map simplified_layouts ks
     | None => []
     end.

(** A simplified node with another layout attribute. *)
Definition with_layout {L : Type} (s : SimplifiedNode.t L) (layout : option L)
  : SimplifiedNode.t L :=
  {| SimplifiedNode.id := SimplifiedNode.id s;
     SimplifiedNode.name := SimplifiedNode.name s;
     SimplifiedNode.type := SimplifiedNode.type s;
     SimplifiedNode.boundingBox := SimplifiedNode.boundingBox s;
     SimplifiedNode.text := SimplifiedNode.text s;
     SimplifiedNode.textStyle := SimplifiedNode.textStyle s;
     SimplifiedNode.fill := SimplifiedNode.fill s;
     SimplifiedNode.fills := SimplifiedNode.fills s;
     SimplifiedNode.strokes := SimplifiedNode.strokes s;
     SimplifiedNode.opacity := SimplifiedNode.opacity s;
     SimplifiedNode.borderRadius := SimplifiedNode.borderRadius s;
     SimplifiedNode.layout := layout;
     SimplifiedNode.strokeWeight := SimplifiedNode.strokeWeight s;
     SimplifiedNode.strokeDashes := SimplifiedNode.strokeDashes s;
     SimplifiedNode.individualStrokeWeights := SimplifiedNode.individualStrokeWeights s;
     SimplifiedNode.children := SimplifiedNode.children s |}.

(** The characters of a color string: decimal digits and A to F. *)
Definition is_HEX_char (c : ascii) : bool :=
  let n := nat_of_ascii c in
  ((Nat.leb 48 n && Nat.leb n 57) || (Nat.leb 65 n && Nat.leb n 70))%bool.

(** The value of a color digit. *)
Definition HEX_value (c : ascii) : Z :=
  let n := Z.of_nat (nat_of_ascii c) in
  if n <=? 57 then n - 48 else n - 55.

(** The three channels a color string ["#RRGGBB"] stands for: the
    string is ["#"] and six characters, each a decimal digit or one of
    A to F; any other string stands for no color. *)
Definition decode_hex (s : string) : option (Z * Z * Z) :=
  match s with
  | String "#" (String r1 (String r0 (String g1 (String g0 (String b1 (String b0 "")))))) =>
      if forallb is_HEX_char [r1; r0; g1; g0; b1; b0]
      then Some (HEX_value r1 * 16 + HEX_value r0,
                 HEX_value g1 * 16 + HEX_value g0,
                 HEX_value b1 * 16 + HEX_value b0)
      else None
  | _ => None
  end.

(** One of the hundredths 0, 0.01, ..., 1, as binary64 quotients; the
    comparison is that of Numbers, for which [-0] equals [0]. *)
Definition is_hundredth (x : Number) : Prop :=
  exists k : Z, 0 <= k <= 100 /\ (x =? Number_of_Z k / 100)%float = true.

(** [at_most c x]: the Number [x] is a zero, or a positive finite value
    [m * 2^e] that is at most the integer [c]. *)
Definition at_most (c : Z) (x : Number) : Prop :=
  (exists s, Prim2SF x = S754_zero s)
  \/ (exists m e, Prim2SF x = S754_finite false m e
                  /\ e <= 0 /\ Zpos m <= c * 2 ^ (- e)).

(** The check behind [is_hundredth], on one quotient. *)
Definition hundredth_ok (k : nat) : bool :=
  let x := (Number_of_Z (Z.of_nat k) / 100)%float in
  ((0 <=? x) && (x <=? 1) && (x =? x))%float.


(** Every node of a simplified tree, in document order. *)
Fixpoint simplified_subnodes {L : Type} (s : SimplifiedNode.t L)
  : list (SimplifiedNode.t L) :=
  s :: match SimplifiedNode.children s with
       | Some ks => flat_map simplified_subnodes ks
       | None => []
       end.

(** A raw paint with another paint-level opacity. *)
Definition Paint_with_opacity (raw : Paint.t) (opacity : option Number) : Paint.t :=
  {| Paint.type := Paint.type raw;
     Paint.color := Paint.color raw;
     Paint.opacity := opacity;
     Paint.imageRef := Paint.imageRef raw;
     Paint.scaleMode := Paint.scaleMode raw;
     Paint.gradientHandlePositions := Paint.gradientHandlePositions raw;
     Paint.gradientStops := Paint.gradientStops raw |}.

(* ================================================================== *)
(** * Sample responses *)
(* ================================================================== *)

(** A file whose document has two top-level nodes and no thumbnail. *)
Definition sample_file : GetFileResponse.t :=
  GetFileResponse.mk "Demo" "2024-05-01T10:00:00Z" None
                     (DocumentNode.mk [card_node; empty_fills_node]).

Definition sample_design : SimplifiedDesign.t (option string) :=
  SimplifiedDesign.mk "Demo" "2024-05-01T10:00:00Z" (Some "")
                      [card_simplified; empty_fills_simplified].

(** A file whose second top-level node has a SOLID stroke without
    color. *)
Definition broken_file : GetFileResponse.t :=
  GetFileResponse.mk "Demo" "2024-05-01T10:00:00Z" (Some "https://example.org/t.png")
                     (DocumentNode.mk [card_node; malformed_first_node]).

(* ================================================================== *)
(** * Binary64 arithmetic: shifting and rounding a mantissa *)
(* ================================================================== *)

(** The number of binary digits of a mantissa. *)
Lemma digits2_pos_size (p : positive) : digits2_pos p = Pos.size p.
Proof. induction p; simpl; congruence. Qed.

Lemma digits2_pos_lower (p : positive) : 2 ^ (Zpos (digits2_pos p) - 1) <= Zpos p.
Proof.
  rewrite digits2_pos_size.
  pose proof (Pos.size_le p) as H.
  assert (H' : 2 ^ Zpos (Pos.size p) <= 2 * Zpos p).
  { rewrite <- Pos2Z.inj_pow. change (2 * Zpos p) with (Zpos p~0). exact H. }
  replace (Zpos (Pos.size p)) with (Zpos (Pos.size p) - 1 + 1) in H' by lia.
  rewrite Z.pow_add_r in H' by lia. lia.
Qed.

(** [iter_pos], the iterator of the binary64 specification, is plain iteration. *)
Lemma iter_pos_nat {A : Type} (f : A -> A) (p : positive) (x : A) :
  iter_pos f p x = Nat.iter (Pos.to_nat p) f x.
Proof.
  revert x. induction p as [p IH | p IH |]; intros x; simpl iter_pos.
  - rewrite !IH, Pos2Nat.inj_xI.
    rewrite <- Nat.iter_add, <- Nat.iter_succ_r. f_equal. lia.
  - rewrite !IH, Pos2Nat.inj_xO, <- Nat.iter_add. f_equal. lia.
  - reflexivity.
Qed.

(** One step of the right shift halves the mantissa; the round and sticky
    bits are set only if a bit was lost. *)
Lemma shr_1_spec (x : shr_record) :
  0 <= shr_m x ->
  shr_m (shr_1 x) = shr_m x / 2
  /\ (sticky (shr_1 x) = true -> shr_m x mod 2 <> 0 \/ sticky x = true).
Proof.
  destruct x as [m r s]. unfold sticky. simpl shr_m. intros Hm.
  destruct m as [|[p|p|]|p]; try lia; cbn [shr_1 shr_m shr_r shr_s].
  - split; [reflexivity|]. intros H. now right.
  - split; [rewrite Pos2Z.inj_xI; apply Z.div_unique with 1; lia|].
    intros _. left. rewrite Pos2Z.inj_xI.
    replace (2 * Zpos p + 1) with (1 + Zpos p * 2) by lia.
    rewrite Z.mod_add by lia. discriminate.
  - split; [rewrite Pos2Z.inj_xO; apply Z.div_unique with 0; lia|].
    intros H. now right.
  - split; [reflexivity|]. intros _. left. discriminate.
Qed.

(** So for [n] steps: the mantissa is divided by 2^n, and a bit is recorded
    as lost only if the remainder is not zero. *)
Lemma iter_shr_1_spec (n : nat) (x : shr_record) :
  0 <= shr_m x ->
  shr_m (Nat.iter n shr_1 x) = shr_m x / 2 ^ Z.of_nat n
  /\ (sticky (Nat.iter n shr_1 x) = true ->
      shr_m x mod 2 ^ Z.of_nat n <> 0 \/ sticky x = true).
Proof.
  intros Hm. induction n as [|n [IHm IHs]].
  - simpl. rewrite Z.div_1_r. split; [reflexivity|]. intros H. now right.
  - change (Nat.iter (S n) shr_1 x) with (shr_1 (Nat.iter n shr_1 x)).
    assert (Hpos : 0 <= shr_m (Nat.iter n shr_1 x)).
    { rewrite IHm. apply Z.div_pos; lia. }
    destruct (shr_1_spec _ Hpos) as [Em Es].
    rewrite Nat2Z.inj_succ, Z.pow_succ_r by lia.
    split.
    + rewrite Em, IHm, Z.div_div by lia. f_equal. lia.
    + intros H. destruct (Es H) as [Hodd | Hst].
      * left. intros Hz. apply Hodd. rewrite IHm.
        apply Z.mod_divide in Hz; [|lia]. destruct Hz as [q Hq].
        rewrite Hq. replace (q * (2 * 2 ^ Z.of_nat n)) with (q * 2 * 2 ^ Z.of_nat n) by lia.
        rewrite Z.div_mul by lia. apply Z.mod_mul. lia.
      * destruct (IHs Hst) as [Hn | Hx]; [|now right].
        left. intros Hz. apply Hn.
        apply Z.mod_divide in Hz; [|lia]. destruct Hz as [q Hq].
        rewrite Hq. replace (q * (2 * 2 ^ Z.of_nat n)) with (q * 2 * 2 ^ Z.of_nat n) by lia.
        apply Z.mod_mul. lia.
Qed.

Lemma shr_spec (x : shr_record) (e k : Z) :
  0 <= shr_m x -> 0 < k ->
  snd (shr x e k) = e + k
  /\ shr_m (fst (shr x e k)) = shr_m x / 2 ^ k
  /\ (sticky (fst (shr x e k)) = true -> shr_m x mod 2 ^ k <> 0 \/ sticky x = true).
Proof.
  intros Hm Hk. destruct k as [|p|p]; try lia. cbn [shr fst snd].
  rewrite iter_pos_nat. split; [reflexivity|].
  rewrite <- (positive_nat_Z p). now apply iter_shr_1_spec.
Qed.

(** Rounding to nearest adds at most one, and nothing when no bit was lost. *)
Lemma round_nearest_even_le (x : shr_record) :
  round_nearest_even (shr_m x) (loc_of_shr_record x) <= shr_m x + 1
  /\ shr_m x <= round_nearest_even (shr_m x) (loc_of_shr_record x)
  /\ (sticky x = false -> round_nearest_even (shr_m x) (loc_of_shr_record x) = shr_m x).
Proof.
  destruct x as [m [|] [|]]; unfold sticky; cbn; try destruct (Z.even m); repeat split; try lia; discriminate.
Qed.

Lemma fexp_le (x w : Z) : x <= w -> w <= 53 -> fexp prec emax x <= 0.
Proof. unfold fexp, SpecFloat.emin, prec, emax. lia. Qed.

(** A mantissa [m] at exponent [e] whose value is at most [c < 2^w] has
    at most [w - e] digits. *)
Lemma Zdigits2_bound (c w m e : Z) :
  0 < c < 2 ^ w -> 0 <= w -> 0 <= m -> e <= 0 -> m <= c * 2 ^ (- e) ->
  Zdigits2 m + e <= w.
Proof.
  intros Hc Hw Hm He Hle. destruct m as [|p|p]; try lia.
  - simpl. lia.
  - cbn [Zdigits2]. pose proof (digits2_pos_lower p) as Hlow.
    assert (Hlt : 2 ^ (Zpos (digits2_pos p) - 1) < 2 ^ (w - e)).
    { replace (w - e) with (w + - e) by lia. rewrite Z.pow_add_r by lia.
      assert (0 < 2 ^ (- e)) by (apply Z.pow_pos_nonneg; lia). nia. }
    apply Z.pow_lt_mono_r_iff in Hlt; lia.
Qed.

(** Shifting a mantissa to its binary64 exponent and rounding it to nearest
    does not take a value [m * 2^e <= c] above [c], for an integer
    [c < 2^53]. *)
Lemma shr_fexp_bound (c w m e : Z) :
  0 < c < 2 ^ w -> 0 <= w <= 53 -> 0 <= m -> e <= 0 -> m <= c * 2 ^ (- e) ->
  let mrs := fst (shr_fexp prec emax m e loc_Exact) in
  let e' := snd (shr_fexp prec emax m e loc_Exact) in
  e' <= 0
  /\ 0 <= shr_m mrs
  /\ shr_m mrs <= c * 2 ^ (- e')
  /\ round_nearest_even (shr_m mrs) (loc_of_shr_record mrs) <= c * 2 ^ (- e').
Proof.
  intros Hc Hw Hm He Hle. unfold shr_fexp. cbn [shr_record_of_loc].
  set (x := {| shr_m := m; shr_r := false; shr_s := false |}).
  set (k := fexp prec emax (Zdigits2 m + e) - e).
  assert (Hfexp : fexp prec emax (Zdigits2 m + e) <= 0).
  { apply fexp_le with w; [|lia]. now apply Zdigits2_bound with c. }
  destruct (Z_lt_le_dec 0 k) as [Hk | Hk].
  - destruct (shr_spec x e k) as [Ee [Em Es]]; [simpl; lia | lia |].
    cbv zeta. rewrite Ee, Em. change (shr_m x) with m in *.
    assert (He' : e + k <= 0) by (unfold k; lia).
    assert (Hpow : 2 ^ (- e) = 2 ^ (- (e + k)) * 2 ^ k).
    { rewrite <- Z.pow_add_r by lia. f_equal. lia. }
    assert (Hk2 : 0 < 2 ^ k) by (apply Z.pow_pos_nonneg; lia).
    assert (Hn : 0 <= c * 2 ^ (- (e + k))).
    { apply Z.mul_nonneg_nonneg; [lia | apply Z.pow_nonneg; lia]. }
    assert (Hdiv : m / 2 ^ k <= c * 2 ^ (- (e + k))).
    { apply Z.div_le_upper_bound; [lia|]. rewrite Hpow in Hle. lia. }
    split; [exact He'|]. split; [apply Z.div_pos; lia|]. split; [exact Hdiv|].
    destruct (round_nearest_even_le (fst (shr x e k))) as [Hup [_ Hexact]].
    rewrite Em in Hup, Hexact. change (shr_m x) with m in *.
    destruct (Z.eq_dec (m / 2 ^ k) (c * 2 ^ (- (e + k)))) as [Heq | Hne]; [|lia].
    rewrite Hexact; [lia|].
    destruct (sticky (fst (shr x e k))) eqn:Est; [|reflexivity].
    destruct (Es eq_refl) as [Hmod | Hst]; [|discriminate Hst].
    exfalso. apply Hmod.
    pose proof (Z.mul_div_le m (2 ^ k) Hk2) as Hfloor.
    assert (Em' : m = c * 2 ^ (- (e + k)) * 2 ^ k) by (rewrite Heq in Hfloor; nia).
    rewrite Em'. apply Z.mod_mul. lia.
  - assert (Eshr : shr x e k = (x, e)) by (destruct k; try lia; reflexivity).
    cbv zeta. rewrite Eshr. cbn. lia.
Qed.

(** Hence the rounding of binary64 takes a value of at most [c] to a
    Number of at most [c]. *)
Lemma binary_round_aux_bound (c w m e : Z) :
  0 < c < 2 ^ w -> 0 <= w <= 53 -> 0 <= m -> e <= 0 -> m <= c * 2 ^ (- e) ->
  match binary_round_aux prec emax false m e loc_Exact with
  | S754_zero s => s = false
  | S754_finite s m' e' => s = false /\ e' <= 0 /\ Zpos m' <= c * 2 ^ (- e')
  | _ => False
  end.
Proof.
  intros Hc Hw Hm He Hle. unfold binary_round_aux.
  pose proof (shr_fexp_bound c w m e Hc Hw Hm He Hle) as H1. cbv zeta in H1.
  destruct (shr_fexp prec emax m e loc_Exact) as [mrs' e'].
  cbn [fst snd] in H1. destruct H1 as [He' [Hpos' [_ Hround]]].
  destruct (round_nearest_even_le mrs') as [_ [Hlow _]].
  set (m2 := round_nearest_even (shr_m mrs') (loc_of_shr_record mrs')) in *.
  assert (Hm2 : 0 <= m2) by lia.
  pose proof (shr_fexp_bound c w m2 e' Hc Hw Hm2 He' Hround) as H2. cbv zeta in H2.
  destruct (shr_fexp prec emax m2 e' loc_Exact) as [mrs'' e''].
  cbn [fst snd] in H2. destruct H2 as [He'' [Hpos'' [Hle'' _]]].
  destruct (shr_m mrs'') as [|p|p]; [reflexivity | | lia].
  assert (E : (e'' <=? emax - prec) = true) by (apply Z.leb_le; unfold emax, prec; lia).
  rewrite E. auto.
Qed.

Lemma iter_xO_value (p k : positive) : Zpos (Pos.iter xO p k) = Zpos p * 2 ^ Zpos k.
Proof.
  induction k as [|k IH] using Pos.peano_ind.
  - cbn [Pos.iter]. rewrite Pos2Z.inj_xO. change (2 ^ 1) with 2. lia.
  - rewrite Pos.iter_succ, Pos2Z.inj_xO, IH, Pos2Z.inj_succ, Z.pow_succ_r by lia. lia.
Qed.

Lemma iter_xO_digits (p k : positive) :
  digits2_pos (Pos.iter xO p k) = (digits2_pos p + k)%positive.
Proof.
  induction k as [|k IH] using Pos.peano_ind.
  - cbn [Pos.iter digits2_pos]. lia.
  - rewrite Pos.iter_succ. cbn [digits2_pos]. rewrite IH. lia.
Qed.

(** A mantissa of 53 digits at an exponent within range is left as it
    is by the rounding of [binary_round_aux]. *)
Lemma binary_round_aux_canonical (s : bool) (m : positive) (e : Z) :
  Zpos (digits2_pos m) = 53 -> -1074 <= e <= 971 ->
  binary_round_aux prec emax s (Zpos m) e loc_Exact = S754_finite s m e.
Proof.
  intros Hd He. unfold binary_round_aux.
  assert (Hshr : forall l, shr_fexp prec emax (Zpos m) e l = (shr_record_of_loc (Zpos m) l, e)).
  { intros l. unfold shr_fexp. cbn [Zdigits2]. rewrite Hd.
    assert (E : fexp prec emax (53 + e) - e = 0)
      by (unfold fexp, SpecFloat.emin, prec, emax; lia).
    rewrite E. reflexivity. }
  rewrite Hshr. cbn [shr_record_of_loc shr_m loc_of_shr_record round_nearest_even].
  rewrite Hshr. cbn [shr_record_of_loc shr_m].
  assert (E : (e <=? emax - prec) = true) by (apply Z.leb_le; unfold emax, prec; lia).
  now rewrite E.
Qed.

(** The binary64 value of a positive integer below 2^53: the integer
    itself, its mantissa shifted to 53 digits. *)
Lemma binary_round_exact (s : bool) (p : positive) :
  Zpos p < 2 ^ 53 ->
  exists m e, binary_round prec emax s p 0 = S754_finite s m e
              /\ e <= 0 /\ Zpos m = Zpos p * 2 ^ (- e).
Proof.
  intros Hp. unfold binary_round.
  pose proof (digits2_pos_lower p) as Hlow.
  assert (Hd : Zpos (digits2_pos p) <= 53).
  { destruct (Z_le_gt_dec (Zpos (digits2_pos p)) 53) as [H | H]; [exact H|].
    exfalso. assert (2 ^ 53 <= 2 ^ (Zpos (digits2_pos p) - 1))
      by (apply Z.pow_le_mono_r; lia). lia. }
  assert (Ef : fexp prec emax (Zpos (digits2_pos p) + 0) = Zpos (digits2_pos p) - 53)
    by (unfold fexp, SpecFloat.emin, prec, emax; lia).
  rewrite Ef. unfold shl_align.
  destruct (Zpos (digits2_pos p) - 53 - 0) as [|k|k] eqn:Ek; try lia.
  - exists p, 0. rewrite binary_round_aux_canonical by lia.
    repeat split; [lia|]. change (2 ^ (- 0)) with 1. lia.
  - exists (Pos.iter xO p k), (Zpos (digits2_pos p) - 53).
    rewrite binary_round_aux_canonical.
    + repeat split; [lia|]. rewrite iter_xO_value. f_equal. f_equal. lia.
    + rewrite iter_xO_digits, Pos2Z.inj_add. lia.
    + lia.
Qed.

(* ================================================================== *)
(** * Color channels *)
(* ================================================================== *)

Lemma digits2_pos_upper (p : positive) : Zpos p < 2 ^ Zpos (digits2_pos p).
Proof.
  rewrite digits2_pos_size, <- Pos2Z.inj_pow. apply Pos2Z.pos_lt_pos, Pos.size_gt.
Qed.

(** A binary64 mantissa is below 2^53. *)
Lemma valid_mantissa_bound (s : bool) (m : positive) (e : Z) :
  valid_binary (S754_finite s m e) = true -> Zpos m < 2 ^ 53.
Proof.
  cbn [SpecFloat.valid_binary]. unfold bounded, canonical_mantissa.
  intros H. apply andb_prop in H. destruct H as [H _]. apply Z.eqb_eq in H.
  unfold fexp, SpecFloat.emin, prec, emax in H.
  assert (Hd : Zpos (digits2_pos m) <= 53) by lia.
  eapply Z.lt_le_trans; [apply digits2_pos_upper|].
  apply Z.pow_le_mono_r; lia.
Qed.

(** A Number between 0 and 1 is a zero or a positive finite value
    [m * 2^e] with [m <= 2^(-e)]. *)
Lemma unit_interval_cases (x : Number) :
  unit_interval x ->
  (exists s, Prim2SF x = S754_zero s)
  \/ (exists m e, Prim2SF x = S754_finite false m e
                  /\ e <= -52 /\ Zpos m <= 2 ^ (- e)).
Proof.
  intros [Hlo Hhi]. rewrite leb_spec in Hlo, Hhi.
  change (Prim2SF 0) with (S754_zero false) in Hlo.
  change (Prim2SF 1) with (S754_finite false 4503599627370496 (-52)) in Hhi.
  pose proof (Prim2SF_valid x) as Hvalid.
  destruct (Prim2SF x) as [s | s | | s m e].
  - left. now exists s.
  - destruct s; [discriminate Hlo | discriminate Hhi].
  - discriminate Hlo.
  - right. exists m, e. destruct s; [discriminate Hlo|].
    split; [reflexivity|].
    unfold SFleb, SFcompare in Hhi.
    destruct (Z.compare_spec e (-52)) as [-> | Hlt | Hgt]; [| |discriminate Hhi].
    + split; [lia|]. change (2 ^ (- -52)) with (Zpos 4503599627370496).
      apply Pos2Z.pos_le_pos. unfold Pos.le, Pos.compare. intros Hgt.
      rewrite Hgt in Hhi. discriminate Hhi.
    + split; [lia|]. apply valid_mantissa_bound in Hvalid.
      assert (2 ^ 53 <= 2 ^ (- e)) by (apply Z.pow_le_mono_r; lia). lia.
Qed.

(** The value [x * 255] for [x] between 0 and 1. *)
Lemma scaled_cases (x : Number) :
  unit_interval x ->
  (exists s, Prim2SF (x * 255)%float = S754_zero s)
  \/ (exists m e, Prim2SF (x * 255)%float = S754_finite false m e
                  /\ e <= 0 /\ Zpos m <= 255 * 2 ^ (- e)).
Proof.
  intros Hx. rewrite mul_spec.
  change (Prim2SF 255) with (S754_finite false 8972014882652160 (-45)).
  destruct (unit_interval_cases x Hx) as [[s ->] | [m [e [-> [He Hm]]]]].
  - left. now exists (xorb s false).
  - unfold SF64mul, SFmul. cbn [xorb].
    pose proof (binary_round_aux_bound 255 8 (Zpos (m * 8972014882652160)) (e + -45))
      as H.
    destruct (binary_round_aux prec emax false (Zpos (m * 8972014882652160))
                               (e + -45) loc_Exact) as [s | s | | s m' e'].
    + left. now exists s.
    + exfalso. apply H; try lia.
      rewrite Pos2Z.inj_mul. replace (- (e + -45)) with (- e + 45) by lia.
      rewrite Z.pow_add_r by lia. change (2 ^ 45) with 35184372088832.
      change (Zpos 8972014882652160) with (255 * 35184372088832). nia.
    + exfalso. apply H; try lia.
      rewrite Pos2Z.inj_mul. replace (- (e + -45)) with (- e + 45) by lia.
      rewrite Z.pow_add_r by lia. change (2 ^ 45) with 35184372088832.
      change (Zpos 8972014882652160) with (255 * 35184372088832). nia.
    + right. exists m', e'. destruct H as [-> [He' Hm']]; try lia.
      * rewrite Pos2Z.inj_mul. replace (- (e + -45)) with (- e + 45) by lia.
        rewrite Z.pow_add_r by lia. change (2 ^ 45) with 35184372088832.
        change (Zpos 8972014882652160) with (255 * 35184372088832). nia.
      * auto.
Qed.

Lemma round_half_up_floor (s : bool) (m : positive) (e : Z) :
  round_half_up s m e = half_up (finite_value s m e).
Proof.
  unfold round_half_up, half_up, finite_value.
  set (v := cond_Zopp s (Zpos m)).
  destruct (0 <=? e) eqn:Ee.
  - unfold Qfloor, Qplus, inject_Z. cbn [Qnum Qden].
    rewrite Z.mul_1_l, Pos.mul_1_l.
    apply Z.div_unique with 1; lia.
  - apply Z.leb_gt in Ee.
    assert (Hp : 0 < 2 ^ (- e)) by (apply Z.pow_pos_nonneg; lia).
    unfold Qfloor, Qplus. cbn [Qnum Qden].
    rewrite Pos2Z.inj_mul, Z2Pos.id by exact Hp.
    rewrite Z.pow_add_r by lia. f_equal; lia.
Qed.

Lemma Math_round_half_up (x : Number) (q : Q) :
  Number_value x = Some q ->
  Math_round x = Int (half_up q) \/ (half_up q = 0 /\ Math_round x = NegZero).
Proof.
  unfold Number_value, Math_round.
  destruct (Prim2SF x) as [s | s | | s m e]; try discriminate.
  - intros E. injection E as <-. change (half_up 0) with 0.
    destruct s; [right | left]; auto.
  - intros E. injection E as <-. rewrite <- round_half_up_floor.
    destruct ((round_half_up s m e =? 0) && s) eqn:Ez; [right | left; reflexivity].
    apply andb_prop in Ez. destruct Ez as [Ez _]. apply Z.eqb_eq in Ez. auto.
Qed.

Lemma scaled_channel_range (x : Number) :
  unit_interval x ->
  0 <= scaled_channel x <= 255
  /\ (Math_round (x * 255)%float = Int (scaled_channel x)
      \/ (scaled_channel x = 0 /\ Math_round (x * 255)%float = NegZero)).
Proof.
  intros Hx. unfold scaled_channel.
  destruct (scaled_cases x Hx) as [[s E] | [m [e [E [He Hm]]]]].
  - assert (Hv : Number_value (x * 255)%float = Some 0%Q)
      by (unfold Number_value; now rewrite E).
    rewrite Hv. split; [change (half_up 0) with 0; lia|].
    now apply Math_round_half_up.
  - assert (Hv : Number_value (x * 255)%float = Some (finite_value false m e))
      by (unfold Number_value; now rewrite E).
    rewrite Hv. split; [|now apply Math_round_half_up].
    rewrite <- round_half_up_floor. unfold round_half_up. cbn [cond_Zopp].
    assert (Hp : 0 < 2 ^ (- e)) by (apply Z.pow_pos_nonneg; lia).
    destruct (0 <=? e) eqn:Ee.
    + apply Z.leb_le in Ee. assert (e = 0) by lia. subst e.
      change (2 ^ (- 0)) with 1 in Hm. change (2 ^ 0) with 1. lia.
    + rewrite Z.pow_add_r by lia. change (2 ^ 1) with 2. split.
      * apply Z.div_pos; lia.
      * apply Z.lt_succ_r. apply Z.div_lt_upper_bound; lia.
Qed.

Lemma get_sign_finite (y : Number) (s : bool) (m : positive) (e : Z) :
  Prim2SF y = S754_finite s m e -> get_sign y = s.
Proof.
  intros E. unfold get_sign, is_zero.
  rewrite eqb_spec, E. change (Prim2SF zero) with (S754_zero false).
  cbn [SFeqb SFcompare].
  destruct s; cbv iota; rewrite ltb_spec, E; reflexivity.
Qed.

(** [Math.round] returns the nearest integer, a half going up. *)
Lemma Math_round_nearest (y : Number) :
  Number_of_Integral (Math_round y) = nearest_integer y.
Proof.
  unfold Math_round, nearest_integer, Number_value.
  destruct (Prim2SF y) as [s | s | | s m e] eqn:E.
  - rewrite <- (SF2Prim_Prim2SF y), E. change (half_up 0) with 0.
    destruct s; reflexivity.
  - rewrite <- (SF2Prim_Prim2SF y), E. destruct s; reflexivity.
  - rewrite <- (SF2Prim_Prim2SF y), E. reflexivity.
  - rewrite (get_sign_finite y s m e E), <- round_half_up_floor.
    cbv zeta. destruct ((round_half_up s m e =? 0) && s); reflexivity.
Qed.

(** [ToInt32] and [<<] on small integers. *)
Lemma wrap32_small (n : Z) : - 2 ^ 31 <= n < 2 ^ 31 -> wrap32 n = n.
Proof. intros H. unfold wrap32. rewrite Z.mod_small; lia. Qed.

Lemma shl_Int_small (n k : Z) :
  0 <= n < 256 -> 0 <= k <= 16 -> shl (Int n) k = Int (n * 2 ^ k).
Proof.
  intros Hn Hk. unfold shl, ToInt32. f_equal.
  rewrite (wrap32_small n) by lia.
  rewrite Z.mod_small by lia. rewrite Z.shiftl_mul_pow2 by lia.
  apply wrap32_small.
  assert (0 < 2 ^ k <= 2 ^ 16) by (split; [apply Z.pow_pos_nonneg | apply Z.pow_le_mono_r]; lia).
  change (2 ^ 16) with 65536 in *. nia.
Qed.

(** The shifted channel, whether [Math.round] gave an integer or [-0]. *)
Lemma shl_channel (r : Integral) (n k : Z) :
  0 <= n < 256 -> 0 <= k <= 16 ->
  r = Int n \/ (n = 0 /\ r = NegZero) ->
  shl r k = Int (n * 2 ^ k).
Proof.
  intros Hn Hk [-> | [-> ->]]; [now apply shl_Int_small|].
  unfold shl, ToInt32. rewrite Z.shiftl_0_l. reflexivity.
Qed.

(** Below 2^53 the rounding of an integer to binary64 is exact. *)
Lemma round64_exact (n : Z) : 0 <= n < 2 ^ 53 -> round64 n = Int n.
Proof.
  intros Hn. unfold round64, Z2SF, binary_normalize.
  destruct n as [|p|p]; [reflexivity | | lia].
  destruct (binary_round_exact false p) as [m [e [-> [He Hm]]]]; [lia|].
  cbn [SF2Integral cond_Zopp]. f_equal.
  destruct (0 <=? e) eqn:Ee.
  - apply Z.leb_le in Ee. assert (e = 0) by lia. subst e.
    change (2 ^ (- 0)) with 1 in Hm. change (2 ^ 0) with 1. lia.
  - rewrite Hm. apply Z.div_mul.
    assert (0 < 2 ^ (- e)) by (apply Z.pow_pos_nonneg; lia). lia.
Qed.

Lemma Number_add_small (a b : Z) :
  0 <= a + b < 2 ^ 53 -> Number_add (Int a) (Int b) = Int (a + b).
Proof. intros H. cbn [Number_add]. now apply round64_exact. Qed.

Lemma add_channel (a n : Z) (b : Integral) :
  0 <= a < 2 ^ 32 -> 0 <= n < 256 ->
  b = Int n \/ (n = 0 /\ b = NegZero) ->
  Number_add (Int a) b = Int (a + n).
Proof.
  intros Ha Hn [-> | [-> ->]].
  - apply Number_add_small. lia.
  - cbn [Number_add]. now rewrite Z.add_0_r.
Qed.

(** [toString(16)], one digit at a time. *)
Lemma hex_of_pos_step (fuel : nat) (q d : Z) (acc : string) :
  0 <= d < 16 -> 0 < q ->
  hex_of_pos (S fuel) (q * 16 + d) acc = hex_of_pos fuel q (String (hex_digit d) acc).
Proof.
  intros Hd Hq. cbn [hex_of_pos].
  rewrite (Z.add_comm (q * 16) d).
  rewrite Z.mod_add, Z.mod_small, Z.div_add, (Z.div_small d) by lia.
  rewrite Z.add_0_l. destruct (q =? 0) eqn:E; [apply Z.eqb_eq in E; lia | reflexivity].
Qed.

Lemma hex_of_pos_last (fuel : nat) (d : Z) (acc : string) :
  0 <= d < 16 -> hex_of_pos (S fuel) d acc = String (hex_digit d) acc.
Proof.
  intros Hd. cbn [hex_of_pos]. rewrite Z.mod_small, Z.div_small by lia. reflexivity.
Qed.

Lemma upper_hex_digit (d : Z) : 0 <= d < 16 -> upper_ascii (hex_digit d) = HEX_digit d.
Proof.
  intros Hd.
  assert (H : d = 0 \/ d = 1 \/ d = 2 \/ d = 3 \/ d = 4 \/ d = 5 \/ d = 6 \/ d = 7
              \/ d = 8 \/ d = 9 \/ d = 10 \/ d = 11 \/ d = 12 \/ d = 13 \/ d = 14
              \/ d = 15) by lia.
  repeat (destruct H as [-> | H]; [reflexivity|]). subst d. reflexivity.
Qed.

(** The seven digits of [1RRGGBB]. *)
Lemma toString16_channels (R G B : Z) :
  0 <= R < 256 -> 0 <= G < 256 -> 0 <= B < 256 ->
  toUpperCase (slice1 (toString16 (Int (2 ^ 24 + R * 2 ^ 16 + G * 2 ^ 8 + B))))
  = hex2 R ++ hex2 G ++ hex2 B.
Proof.
  intros HR HG HB.
  set (v := 2 ^ 24 + R * 2 ^ 16 + G * 2 ^ 8 + B).
  assert (Hv : 2 ^ 24 <= v < 2 ^ 25) by (unfold v; lia).
  unfold toString16.
  assert (E : (v <? 0) = false) by (apply Z.ltb_ge; lia). rewrite E.
  unfold hex_of_nonneg.
  assert (Hlog : Z.log2 v = 24) by (apply Z.log2_unique; lia). rewrite Hlog.
  change (S (Z.to_nat 24)) with 25%nat.
  pose proof (Z.div_mod R 16 ltac:(lia)) as ER.
  pose proof (Z.div_mod G 16 ltac:(lia)) as EG.
  pose proof (Z.div_mod B 16 ltac:(lia)) as EB.
  pose proof (Z.mod_pos_bound R 16 ltac:(lia)) as HR0.
  pose proof (Z.mod_pos_bound G 16 ltac:(lia)) as HG0.
  pose proof (Z.mod_pos_bound B 16 ltac:(lia)) as HB0.
  assert (HR1 : 0 <= R / 16 < 16)
    by (split; [apply Z.div_pos | apply Z.div_lt_upper_bound]; lia).
  assert (HG1 : 0 <= G / 16 < 16)
    by (split; [apply Z.div_pos | apply Z.div_lt_upper_bound]; lia).
  assert (HB1 : 0 <= B / 16 < 16)
    by (split; [apply Z.div_pos | apply Z.div_lt_upper_bound]; lia).
  replace v with
    ((((((1 * 16 + R / 16) * 16 + R mod 16) * 16 + G / 16) * 16 + G mod 16) * 16
      + B / 16) * 16 + B mod 16) by (unfold v; lia).
  rewrite !hex_of_pos_step by lia.
  rewrite hex_of_pos_last by lia.
  cbn [slice1 toUpperCase].
  rewrite !upper_hex_digit by lia. reflexivity.
Qed.

(** C2: for a color whose channels r, g, b lie between 0 and 1,
    [convertColor] returns as [hex] a "#" followed by the two upper-case
    hexadecimal digits of each of r, g, b scaled by 255 and rounded half
    up, each a number from 0 to 255, and as [opacity] the external
    opacity (1 when the argument is absent) times the alpha channel,
    rounded to two decimal places: the integer nearest to a hundred
    times the product, over 100. *)
Theorem convertColor_spec (color : RGBA.t) (opacity : option Number) :
  unit_interval (RGBA.r color) ->
  unit_interval (RGBA.g color) ->
  unit_interval (RGBA.b color) ->
  ColorValue.hex (convertColor color opacity)
  = "#" ++ hex2 (scaled_channel (RGBA.r color))
        ++ hex2 (scaled_channel (RGBA.g color))
        ++ hex2 (scaled_channel (RGBA.b color))
  /\ 0 <= scaled_channel (RGBA.r color) <= 255
  /\ 0 <= scaled_channel (RGBA.g color) <= 255
  /\ 0 <= scaled_channel (RGBA.b color) <= 255
  /\ ColorValue.opacity (convertColor color opacity)
     = round_to_hundredths
         (match opacity with Some o => o | None => 1%float end * RGBA.a color)%float.
Proof.
  intros Hr Hg Hb.
  destruct (scaled_channel_range _ Hr) as [HR Er].
  destruct (scaled_channel_range _ Hg) as [HG Eg].
  destruct (scaled_channel_range _ Hb) as [HB Eb].
  repeat split; try lia.
  2: { unfold convertColor, round_to_hundredths. cbn [ColorValue.opacity].
       now rewrite Math_round_nearest. }
  unfold convertColor. cbn [ColorValue.hex].
  change (shl (Int 1) 24) with (Int (2 ^ 24)).
  rewrite (shl_channel _ (scaled_channel (RGBA.r color)) 16) by (lia || exact Er).
  rewrite (shl_channel _ (scaled_channel (RGBA.g color)) 8) by (lia || exact Eg).
  rewrite !Number_add_small by lia.
  rewrite (add_channel _ (scaled_channel (RGBA.b color))) by (lia || exact Eb).
  rewrite toString16_channels by lia. reflexivity.
Qed.

Lemma convertColor_spec_witness :
  ColorValue.hex (convertColor (RGBA.mk 1 0.5 0 0.5)%float (Some 0.5%float))
  = "#" ++ hex2 (scaled_channel 1%float) ++ hex2 (scaled_channel 0.5%float)
        ++ hex2 (scaled_channel 0%float)
  /\ 0 <= scaled_channel 1%float <= 255
  /\ 0 <= scaled_channel 0.5%float <= 255
  /\ 0 <= scaled_channel 0%float <= 255
  /\ ColorValue.opacity (convertColor (RGBA.mk 1 0.5 0 0.5)%float (Some 0.5%float))
     = round_to_hundredths (0.5 * 0.5)%float.
Proof.
  apply (convertColor_spec (RGBA.mk 1 0.5 0 0.5)%float (Some 0.5%float));
    split; reflexivity.
Defined.

Example convertColor_half :
  convertColor (RGBA.mk 1 0.5 0 0.5)%float (Some 0.5%float)
  = ColorValue.mk "#FF8000" 0.25%float
  /\ scaled_channel 0.5%float = 128.
Proof. split; vm_compute; reflexivity. Qed.

(** With alpha 1 and no external opacity the opacity is exactly 1. *)
Lemma convertColor_opaque (r g b : Number) :
  ColorValue.opacity (convertColor (RGBA.mk r g b 1%float) None) = 1%float.
Proof. unfold convertColor. cbn [ColorValue.opacity RGBA.a]. vm_compute. reflexivity. Qed.

Example convertColor_red :
  convertColor (RGBA.mk 1 0 0 1)%float None = ColorValue.mk "#FF0000" 1%float.
Proof. vm_compute. reflexivity. Qed.

Example convertColor_blue_half :
  convertColor (RGBA.mk 0 0 1 0.5)%float (Some 0.5%float)
  = ColorValue.mk "#0000FF" 0.25%float.
Proof. vm_compute. reflexivity. Qed.

(** [Math.round] on halves and on negative values. *)
Example Math_round_samples :
  Math_round 2.5%float = Int 3
  /\ Math_round (-2.5)%float = Int (-2)
  /\ Math_round (-0.5)%float = NegZero
  /\ Math_round 127.5%float = Int 128.
Proof. repeat split; vm_compute; reflexivity. Qed.

(* ================================================================== *)
(** * Properties of the paint normalizer *)
(* ================================================================== *)

(** The tags of the branches of [parsePaint]. *)
Lemma includes_In (arr : list string) (s : string) :
  includes arr s = true <-> In s arr.
Proof.
  unfold includes. rewrite existsb_exists. split.
  - intros [x [Hin Heq]]. apply String.eqb_eq in Heq. now subst.
  - intros Hin. exists s. split; [assumption | apply String.eqb_refl].
Qed.

Lemma recognized_cases (type : string) :
  In type recognized_kinds <->
  (type =? "IMAGE")%string = true \/ (type =? "SOLID")%string = true
  \/ includes gradient_kinds type = true.
Proof.
  rewrite includes_In, !String.eqb_eq. unfold recognized_kinds, gradient_kinds.
  simpl. intuition congruence.
Qed.

Lemma parsePaint_unrecognized (raw : Paint.t) :
  ~ In (Paint.type raw) recognized_kinds ->
  parsePaint raw = Throw (unknown_paint (Paint.type raw)).
Proof.
  intros Hnot. rewrite recognized_cases in Hnot. unfold parsePaint.
  destruct (Paint.type raw =? "IMAGE")%string eqn:E1; [tauto|].
  destruct (Paint.type raw =? "SOLID")%string eqn:E2; [tauto|].
  destruct (includes gradient_kinds (Paint.type raw)) eqn:E3; [tauto|].
  reflexivity.
Qed.

Lemma parsePaint_recognized (raw : Paint.t) :
  In (Paint.type raw) recognized_kinds ->
  (exists fill, parsePaint raw = Ok fill) \/ parsePaint raw = Throw TypeError.
Proof.
  intros Hin. rewrite recognized_cases in Hin. unfold parsePaint.
  destruct (Paint.type raw =? "IMAGE")%string eqn:E1; [left; eauto|].
  destruct (Paint.type raw =? "SOLID")%string eqn:E2.
  { destruct (Paint.color raw); [left; eauto | now right]. }
  destruct (includes gradient_kinds (Paint.type raw)) eqn:E3.
  { destruct (Paint.gradientStops raw); [left; eauto | now right]. }
  destruct Hin as [H | [H | H]]; discriminate.
Qed.

(** C1: [parsePaint] raises its "Unknown paint type" error exactly on the
    paints whose tag is none of the recognized kinds: on such a paint it
    throws that error, carrying the tag, and so returns no fill; on a
    paint with a recognized tag it throws no [Error] at all. *)
Theorem parsePaint_unknown_iff (raw : Paint.t) :
  ((exists message, parsePaint raw = Throw (Error message))
   <-> ~ In (Paint.type raw) recognized_kinds)
  /\ (~ In (Paint.type raw) recognized_kinds ->
      parsePaint raw = Throw (Error ("Unknown paint type: " ++ Paint.type raw))
      /\ forall fill, parsePaint raw <> Ok fill).
Proof.
  split.
  - split.
    + intros [message Hthrow] Hin.
      destruct (parsePaint_recognized raw Hin) as [[fill Hok] | Htype];
        congruence.
    + intros Hnot. exists ("Unknown paint type: " ++ Paint.type raw).
      now apply parsePaint_unrecognized.
  - intros Hnot. pose proof (parsePaint_unrecognized raw Hnot) as Hthrow.
    split; [exact Hthrow|]. intros fill Hok. unfold unknown_paint in Hthrow.
    congruence.
Qed.

Lemma parsePaint_unknown_iff_witness :
  parsePaint emoji_paint = Throw (Error "Unknown paint type: EMOJI")
  /\ forall fill, parsePaint emoji_paint <> Ok fill.
Proof.
  apply (parsePaint_unknown_iff emoji_paint).
  unfold recognized_kinds, emoji_paint; simpl.
  intros H; repeat (destruct H as [H | H]; [discriminate H|]); exact H.
Defined.

Lemma convertColor_default (color : RGBA.t) :
  convertColor color None = convertColor color (Some 1%float).
Proof. reflexivity. Qed.

(** C6: on a paint with one of the four gradient tags and with its stop
    list, [parsePaint] returns a fill with the same tag and the same
    handle positions, whose stop list has the length of the source list
    and, at each index, the source stop's position with its color
    converted by [convertColor] at opacity 1. *)
Theorem parsePaint_gradient (raw : Paint.t) (stops : list ColorStop.t) :
  In (Paint.type raw) gradient_kinds ->
  Paint.gradientStops raw = Some stops ->
  exists fill out,
    parsePaint raw = Ok fill
    /\ SimplifiedFill.type fill = Paint.type raw
    /\ SimplifiedFill.gradientHandlePositions fill = Paint.gradientHandlePositions raw
    /\ SimplifiedFill.gradientStops fill = Some out
    /\ List.length out = List.length stops
    /\ forall (i : nat) (stop : ColorStop.t),
         nth_error stops i = Some stop ->
         nth_error out i =
           Some {| GradientStop.position := ColorStop.position stop;
                   GradientStop.color :=
                     convertColor (ColorStop.color stop) (Some 1%float) |}.
Proof.
  intros Hkind Hstops.
  assert (E1 : (Paint.type raw =? "IMAGE")%string = false).
  { apply String.eqb_neq. intros E. rewrite E in Hkind. simpl in Hkind.
    intuition discriminate. }
  assert (E2 : (Paint.type raw =? "SOLID")%string = false).
  { apply String.eqb_neq. intros E. rewrite E in Hkind. simpl in Hkind.
    intuition discriminate. }
  apply includes_In in Hkind.
  unfold parsePaint. rewrite E1, E2, Hkind, Hstops.
  eexists. eexists. split; [reflexivity|]. simpl.
  repeat split.
  - apply length_map.
  - intros i stop Hnth. rewrite nth_error_map, Hnth. reflexivity.
Qed.

Lemma parsePaint_gradient_witness :
  exists fill out,
    parsePaint linear_gradient = Ok fill
    /\ SimplifiedFill.type fill = "GRADIENT_LINEAR"
    /\ SimplifiedFill.gradientHandlePositions fill
       = Some [Vector.mk 0 0.5; Vector.mk 1 0.5; Vector.mk 0 1]%float
    /\ SimplifiedFill.gradientStops fill = Some out
    /\ List.length out = 3%nat
    /\ forall (i : nat) (stop : ColorStop.t),
         nth_error three_stops i = Some stop ->
         nth_error out i =
           Some {| GradientStop.position := ColorStop.position stop;
                   GradientStop.color :=
                     convertColor (ColorStop.color stop) (Some 1%float) |}.
Proof.
  apply (parsePaint_gradient linear_gradient three_stops).
  - simpl. left. reflexivity.
  - reflexivity.
Defined.

(** The stops of the gradient above, as they come out. *)
Example gradient_stop_positions :
  match parsePaint linear_gradient with
  | Ok fill =>
      option_map (map (fun s => (GradientStop.position s,
                                 ColorValue.hex (GradientStop.color s))))
                 (SimplifiedFill.gradientStops fill)
  | Throw _ => None
  end = Some [(0, "#FF0000"); (0.5, "#00FF00"); (1, "#0000FF")]%float.
Proof. vm_compute. reflexivity. Qed.

(** C10: a SOLID paint with no color makes [parsePaint] raise a
    TypeError, the read of a property of [undefined], which is not the
    "Unknown paint type" error; a SOLID paint with a color always gets
    its fill. *)
Theorem parsePaint_solid_color (raw : Paint.t) :
  Paint.type raw = "SOLID" ->
  (Paint.color raw = None ->
     parsePaint raw = Throw TypeError
     /\ parsePaint raw <> Throw (unknown_paint (Paint.type raw)))
  /\ (forall color, Paint.color raw = Some color ->
        parsePaint raw =
          Ok {| SimplifiedFill.type := "SOLID";
                SimplifiedFill.hex :=
                  Some (ColorValue.hex (convertColor color (Paint.opacity raw)));
                SimplifiedFill.opacity :=
                  Some (ColorValue.opacity (convertColor color (Paint.opacity raw)));
                SimplifiedFill.imageRef := None;
                SimplifiedFill.scaleMode := None;
                SimplifiedFill.gradientHandlePositions := None;
                SimplifiedFill.gradientStops := None |}).
Proof.
  intros Htype. unfold parsePaint. rewrite Htype.
  change ("SOLID" =? "IMAGE")%string with false.
  change ("SOLID" =? "SOLID")%string with true. cbv iota. split.
  - intros Hcolor. rewrite Hcolor. split; [reflexivity | discriminate].
  - intros color Hcolor. rewrite Hcolor. reflexivity.
Qed.

Lemma parsePaint_solid_color_witness :
  Paint.type solid_without_color = "SOLID"
  /\ Paint.color solid_without_color = None
  /\ parsePaint solid_without_color = Throw TypeError
  /\ parsePaint solid_without_color <> Throw (unknown_paint "SOLID").
Proof.
  split; [reflexivity|]. split; [reflexivity|].
  exact (proj1 (parsePaint_solid_color solid_without_color eq_refl) eq_refl).
Defined.

(* ================================================================== *)
(** * Auxiliary facts: [mapM], raw trees *)
(* ================================================================== *)

(** [mapM] returns a list exactly when the callback returns on every
    element, and the results are in the order of the elements. *)
Lemma mapM_Ok_Forall2 {A B : Type} (f : A -> result B) (l : list A) (out : list B) :
  mapM f l = Ok out <-> Forall2 (fun x y => f x = Ok y) l out.
Proof.
  revert out. induction l as [|x rest IH]; intros out; simpl.
  - split.
    + intros E. injection E as <-. constructor.
    + intros H. inversion H. reflexivity.
  - split.
    + destruct (f x) as [y|e] eqn:Ex; simpl; [|discriminate].
      destruct (mapM f rest) as [ys|e] eqn:Er; simpl; [|discriminate].
      intros E. injection E as <-. constructor; [assumption|]. now apply IH.
    + intros H. inversion H as [|x' y l' ys Hy Hrest]; subst.
      rewrite Hy. simpl. apply IH in Hrest. rewrite Hrest. reflexivity.
Qed.

Lemma mapM_ext {A B : Type} (f g : A -> result B) (l : list A) :
  Forall (fun x => f x = g x) l -> mapM f l = mapM g l.
Proof.
  induction 1 as [|x rest Hx _ IH]; simpl; [reflexivity|].
  rewrite Hx, IH. reflexivity.
Qed.

(** The first exception of a [mapM]. *)
Lemma thrown_mapM_cons {A B : Type} (f : A -> result B) (x : A) (l : list A) :
  thrown (mapM f (x :: l)) = or_else (thrown (f x)) (thrown (mapM f l)).
Proof.
  simpl. destruct (f x); simpl; [|reflexivity]. destruct (mapM f l); reflexivity.
Qed.

Lemma thrown_mapM_app {A B : Type} (f : A -> result B) (l1 l2 : list A) :
  thrown (mapM f (l1 ++ l2)%list)
  = or_else (thrown (mapM f l1)) (thrown (mapM f l2)).
Proof.
  induction l1 as [|x rest IH].
  - reflexivity.
  - change ((x :: rest) ++ l2)%list with (x :: (rest ++ l2))%list.
    rewrite !thrown_mapM_cons, IH. destruct (thrown (f x)); reflexivity.
Qed.

Lemma thrown_bind {A B : Type} (c : result A) (k : A -> result B) :
  thrown (bind c k)
  = match c with Ok x => thrown (k x) | Throw e => Some e end.
Proof. destruct c; reflexivity. Qed.

(** [all_paints] lists the paints of the tree. *)
Lemma paint_in_all_paints (p : Paint.t) (n : Node.t) :
  paint_in p n <-> In p (all_paints n).
Proof.
  split.
  - induction 1 as [n paints Hf Hin | n paints Hs Hin | n child cs Hc Hin _ IH];
      destruct n; simpl in *; subst; rewrite !in_app_iff.
    + now left.
    + right; now left.
    + right; right. apply in_flat_map. now exists child.
  - revert p. induction n as [n IH] using Node_induction. intros p Hin.
    destruct n as [i nm ty ch st fi sk sw sd isw op cr kids]; simpl in *.
    rewrite !in_app_iff in Hin. destruct Hin as [Hin | [Hin | Hin]].
    + destruct fi as [|paints|]; simpl in Hin; try contradiction.
      now apply paint_in_fills with (paints := paints).
    + destruct sk as [|paints|]; simpl in Hin; try contradiction.
      now apply paint_in_strokes with (paints := paints).
    + destruct kids as [cs|]; [|contradiction].
      apply in_flat_map in Hin. destruct Hin as [child [Hc Hp]].
      apply paint_in_child with (child := child) (cs := cs);
        [reflexivity | assumption |].
      rewrite Forall_forall in IH. now apply IH.
Qed.

Lemma In_recognized_dec (type : string) :
  {In type recognized_kinds} + {~ In type recognized_kinds}.
Proof. apply in_dec, string_dec. Qed.

Lemma Ok_inj {A : Type} (x y : A) : Ok x = Ok y -> x = y.
Proof. intros E. now injection E. Qed.

Lemma Some_inj {A : Type} (x y : A) : Some x = Some y -> x = y.
Proof. intros E. now injection E. Qed.

(** The first exception of a [mapM], by the element that raises it. *)
Lemma mapM_Throw_split {A B : Type} (f : A -> result B) (l : list A) (e : exn) :
  mapM f l = Throw e <->
  exists before x after,
    l = (before ++ x :: after)%list
    /\ Forall (fun a => exists b, f a = Ok b) before
    /\ f x = Throw e.
Proof.
  induction l as [|a rest IH].
  - split; [discriminate|]. intros [before [x [after [E _]]]].
    destruct before; discriminate E.
  - cbn [mapM]. destruct (f a) as [b|e'] eqn:Ea; cbn [bind].
    + split.
      * destruct (mapM f rest) as [bs|e''] eqn:Er; cbn [bind]; [discriminate|].
        intros E. injection E as ->. destruct (proj1 IH eq_refl)
          as [before [x [after [-> [Hall Hx]]]]].
        exists (a :: before), x, after. repeat split; try assumption.
        constructor; [now exists b | assumption].
      * intros [before [x [after [E [Hall Hx]]]]].
        destruct before as [|a' before]; cbn in E; injection E as <- ->.
        { congruence. }
        inversion Hall as [|? ? _ Hrest]; subst.
        assert (Hr : mapM f (before ++ x :: after) = Throw e)
          by (apply IH; now exists before, x, after).
        fold (mapM f). rewrite Hr. reflexivity.
    + split.
      * intros E. injection E as ->. exists [], a, rest. repeat split; auto.
      * intros [before [x [after [E [Hall Hx]]]]].
        destruct before as [|a' before]; cbn in E; injection E as <- ->.
        { congruence. }
        inversion Hall as [|? ? [b Hb] _]; subst. congruence.
Qed.

Lemma thrown_Throw {A : Type} (c : result A) (e : exn) :
  thrown c = Some e <-> c = Throw e.
Proof. destruct c; cbn; split; congruence. Qed.

Lemma thrown_None_Forall {A B : Type} (f : A -> result B) (l : list A) :
  thrown (mapM f l) = None <-> Forall (fun a => exists b, f a = Ok b) l.
Proof.
  induction l as [|a l IH]; [split; [constructor | reflexivity]|].
  rewrite thrown_mapM_cons. split.
  - destruct (f a) as [b|e] eqn:Ea; cbn [thrown or_else]; [|discriminate].
    intros H. constructor; [now exists b | now apply IH].
  - intros H. inversion H as [|? ? [b Hb] Hl]; subst. rewrite Hb. cbn [thrown or_else].
    now apply IH.
Qed.

(** A list with an unrecognized paint splits at its first one. *)
Lemma first_unrecognized (l : list Paint.t) :
  (exists p, In p l /\ ~ In (Paint.type p) recognized_kinds) ->
  exists before q after,
    l = (before ++ q :: after)%list
    /\ Forall (fun p => In (Paint.type p) recognized_kinds) before
    /\ ~ In (Paint.type q) recognized_kinds.
Proof.
  induction l as [|x rest IH]; intros [p [Hin Hp]]; [destruct Hin|].
  destruct (In_recognized_dec (Paint.type x)) as [Hrec | Hnot].
  - destruct Hin as [<- | Hin]; [contradiction|].
    destruct IH as [before [q [after [-> [Hall Hq]]]]]; [now exists p|].
    exists (x :: before), q, after. repeat split; [constructor|]; assumption.
  - exists [], x, rest. repeat split; [constructor | assumption].
Qed.

(* ================================================================== *)
(** * Properties of the node transformer *)
(* ================================================================== *)

Section NodeProperties.

Variable SimplifiedLayout : Type.
Variable buildSimplifiedLayout : Node.t -> option Node.t -> SimplifiedLayout.
Variable Number_toString : Number -> string.

Abbreviation parse := (parseNode SimplifiedLayout buildSimplifiedLayout Number_toString).
Abbreviation style_of := (parseStyle Number_toString).
Abbreviation kids_of := (parseChildren SimplifiedLayout buildSimplifiedLayout Number_toString).
Abbreviation node_of := (simplified SimplifiedLayout buildSimplifiedLayout Number_toString).

Lemma parseNode_unfold (n : Node.t) (parent : option Node.t) :
  parse n parent =
    (fills <- parsePaints (Node.fills n) ;;
     strokes <- parsePaints (Node.strokes n) ;;
     children <- kids_of n ;;
     Ok (node_of n parent fills strokes children)).
Proof.
  destruct n as [i nm ty ch st fi sk sw sd isw op cr kids].
  unfold parseChildren, simplified.
  cbn [parseNode Node.children Node.strokeWeight Node.strokeDashes
    Node.individualStrokeWeights Node.opacity Node.cornerRadius Node.characters
    Node.style Node.id Node.name Node.type Node.fills Node.strokes].
  destruct (parsePaints fi) as [fills|e]; [|reflexivity].
  destruct (parsePaints sk) as [strokes|e]; [|reflexivity].
  cbn [bind].
  match goal with |- bind ?c _ = bind ?c _ => destruct c as [children|e] end;
    [|reflexivity].
  cbn [bind]. f_equal. f_equal; try reflexivity.
  - destruct ch as [[|c rest]|]; reflexivity.
  - now destruct st.
  - now destruct op.
  - now destruct cr.
  - now destruct sw.
  - now destruct sd.
  - destruct isw as [[[wt|] [wr|] [wb|] [wl|]]|]; reflexivity.
Qed.

Lemma parseNode_Ok_inv (n : Node.t) (parent : option Node.t)
    (s : SimplifiedNode.t SimplifiedLayout) :
  parse n parent = Ok s ->
  exists fills strokes children,
    parsePaints (Node.fills n) = Ok fills
    /\ parsePaints (Node.strokes n) = Ok strokes
    /\ kids_of n = Ok children
    /\ s = node_of n parent fills strokes children.
Proof.
  rewrite parseNode_unfold.
  destruct (parsePaints (Node.fills n)) as [fills|e]; [|discriminate].
  destruct (parsePaints (Node.strokes n)) as [strokes|e]; [|discriminate].
  destruct (kids_of n) as [children|e]; [|discriminate].
  cbn [bind]. intros E. injection E as <-.
  exists fills, strokes, children. auto.
Qed.

Lemma parsePaints_Ok_inv (v : field (list Paint.t))
    (out : option (list SimplifiedFill.t)) :
  parsePaints v = Ok out ->
  match v with
  | Of paints =>
      exists fs, out = Some fs /\ Forall2 (fun p f => parsePaint p = Ok f) paints fs
  | _ => out = None
  end.
Proof.
  unfold parsePaints. destruct v as [|paints|]; cbn [hasValue_field Array_isArray andb].
  - intros E. now injection E.
  - destruct (mapM parsePaint paints) as [fs|e] eqn:Em; [|discriminate].
    cbn [bind]. intros E. injection E as <-. exists fs. split; [reflexivity|].
    now apply mapM_Ok_Forall2.
  - intros E. now injection E.
Qed.

Lemma thrown_parsePaints (v : field (list Paint.t)) :
  thrown (parsePaints v) = thrown (mapM parsePaint (paints_of v)).
Proof.
  unfold parsePaints. destruct v as [|paints|]; try reflexivity.
  cbn [hasValue_field Array_isArray andb paints_of].
  now destruct (mapM parsePaint paints).
Qed.

(** [parseNode] ends with the first exception [parsePaint] raises on
    the paints of the tree, and returns a node when there is none. *)
Lemma thrown_parseNode (n : Node.t) :
  forall parent, thrown (parse n parent) = thrown (mapM parsePaint (all_paints n)).
Proof.
  induction n as [n IH] using Node_induction. intros parent.
  rewrite parseNode_unfold.
  assert (Hkids : thrown (kids_of n)
                  = thrown (mapM parsePaint
                              (match Node.children n with
                               | Some cs => flat_map all_paints cs
                               | None => []
                               end))).
  { unfold parseChildren. destruct (Node.children n) as [cs|]; [|reflexivity].
    destruct cs as [|c cs]; [reflexivity|].
    cbn [List.length Nat.eqb negb]. rewrite thrown_bind.
    transitivity (thrown (mapM (fun child => parse child (Some n)) (c :: cs))).
    { now destruct (mapM _ (c :: cs)). }
    induction IH as [|x rest Hx _ IHrest]; [reflexivity|].
    cbn [flat_map]. rewrite thrown_mapM_cons, thrown_mapM_app, Hx, IHrest.
    reflexivity. }
  destruct n as [i nm ty ch st fi sk sw sd isw op cr kids].
  cbn [all_paints Node.fills Node.strokes Node.children] in *.
  rewrite !thrown_mapM_app, <- !thrown_parsePaints, <- Hkids.
  cbn [Node.fills Node.strokes].
  destruct (parsePaints fi); [|reflexivity].
  destruct (parsePaints sk); [|reflexivity].
  cbn [bind thrown or_else]. now destruct (kids_of _).
Qed.

Lemma parseNode_fills_strokes_aux (n : Node.t) (parent : option Node.t)
    (s : SimplifiedNode.t SimplifiedLayout) :
  parse n parent = Ok s ->
  (SimplifiedNode.fills s <> None <-> exists paints, Node.fills n = Of paints)
  /\ (SimplifiedNode.strokes s <> None <-> exists paints, Node.strokes n = Of paints).
Proof.
  intros Hok.
  destruct (parseNode_Ok_inv n parent s Hok)
    as [fills [strokes [children [Hf [Hs [_ ->]]]]]].
  apply parsePaints_Ok_inv in Hf, Hs.
  cbn [simplified SimplifiedNode.fills SimplifiedNode.strokes].
  split; split.
  - intros Hsome. destruct (Node.fills n) as [|paints|]; try contradiction.
    now exists paints.
  - intros [paints E]. rewrite E in Hf. destruct Hf as [fs [-> _]]. discriminate.
  - intros Hsome. destruct (Node.strokes n) as [|paints|]; try contradiction.
    now exists paints.
  - intros [paints E]. rewrite E in Hs. destruct Hs as [fs [-> _]]. discriminate.
Qed.

(** C3: the [fills] attribute of the normalized node is present
    exactly when the source property is an array, be it empty or not,
    and is then the source list with [parsePaint] applied to each entry
    in order; so for [strokes]. *)
Theorem parseNode_fills_strokes (n : Node.t) (parent : option Node.t)
    (s : SimplifiedNode.t SimplifiedLayout) :
  parse n parent = Ok s ->
  normalized_from (Node.fills n) (SimplifiedNode.fills s)
  /\ normalized_from (Node.strokes n) (SimplifiedNode.strokes s)
  /\ (SimplifiedNode.fills s <> None <-> exists paints, Node.fills n = Of paints)
  /\ (SimplifiedNode.strokes s <> None <-> exists paints, Node.strokes n = Of paints).
Proof.
  intros Hok.
  destruct (parseNode_Ok_inv n parent s Hok)
    as [fills [strokes [children [Hf [Hs [_ ->]]]]]].
  apply parsePaints_Ok_inv in Hf, Hs. cbn [simplified SimplifiedNode.fills
    SimplifiedNode.strokes]. unfold normalized_from.
  repeat split; try assumption.
  - intros Hsome. destruct (Node.fills n) as [|paints|]; try contradiction.
    now exists paints.
  - intros [paints E]. rewrite E in Hf. destruct Hf as [fs [-> _]]. discriminate.
  - intros Hsome. destruct (Node.strokes n) as [|paints|]; try contradiction.
    now exists paints.
  - intros [paints E]. rewrite E in Hs. destruct Hs as [fs [-> _]]. discriminate.
Qed.

(** C4: the [strokeWeight] attribute is present exactly when the
    source stroke weight is a number and the normalized [strokes] list
    has been produced and is not empty, and it is then that number; with
    no normalized strokes, or an empty list of them, there is no
    [strokeWeight], whatever the source carries. *)
Theorem parseNode_strokeWeight (n : Node.t) (parent : option Node.t)
    (s : SimplifiedNode.t SimplifiedLayout) :
  parse n parent = Ok s ->
  (forall w,
      SimplifiedNode.strokeWeight s = Some w
      <-> Node.strokeWeight n = Of w
          /\ exists l, SimplifiedNode.strokes s = Some l /\ l <> [])
  /\ (SimplifiedNode.strokes s = None \/ SimplifiedNode.strokes s = Some [] ->
      SimplifiedNode.strokeWeight s = None).
Proof.
  intros Hok.
  destruct (parseNode_Ok_inv n parent s Hok)
    as [fills [strokes [children [_ [_ [_ ->]]]]]].
  cbn [simplified SimplifiedNode.strokeWeight SimplifiedNode.strokes].
  split.
  - intros w. destruct (Node.strokeWeight n) as [|w'|].
    + split; [discriminate | intros [E _]; discriminate].
    + destruct strokes as [[|f l]|]; cbn [strokes_length_truthy List.length Nat.eqb negb].
      * split; [discriminate|]. intros [_ [l [E Hne]]]. injection E as <-.
        now elim Hne.
      * split.
        -- intros E. injection E as <-. split; [reflexivity|].
           exists (f :: l). split; [reflexivity | discriminate].
        -- intros [E _]. now injection E as <-.
      * split; [discriminate|]. intros [_ [l [E _]]]. discriminate.
    + split; [discriminate | intros [E _]; discriminate].
  - intros [-> | ->]; now destruct (Node.strokeWeight n).
Qed.

(** Every operand is unusable or a usable Number. *)
Lemma unusable_or_usable (v : option Number) :
  unusable v \/ exists x, v = Some x /\ usable x.
Proof.
  destruct v as [x|]; [|now left]. unfold unusable, usable.
  destruct (is_zero x) eqn:Hz; [left; now left|].
  destruct (is_nan x) eqn:Hn; [left; now right|].
  right. exists x. repeat split; assumption.
Qed.

Lemma truthy_unusable (v : option Number) : unusable v -> truthy v = false.
Proof.
  destruct v as [x|]; [|reflexivity]. cbn [unusable truthy]. unfold Number_truthy.
  intros [-> | ->]; [now rewrite orb_true_r | reflexivity].
Qed.

Lemma truthy_usable (x : Number) : usable x -> Number_truthy x = true.
Proof. intros [Hz Hn]. unfold Number_truthy. now rewrite Hz, Hn. Qed.

Lemma truthy_strict_neq_zero (x : Number) :
  Number_truthy x = true -> Number_strict_neq x 0%float = true.
Proof.
  unfold Number_truthy, is_zero, Number_strict_neq. change zero with 0%float.
  destruct (x =? 0)%float; [|reflexivity]. rewrite orb_true_r. intros H; discriminate H.
Qed.

(** C5, amended: a node without a style record gets no [textStyle]; one
    with a style record gets a [textStyle] that copies the plain style
    fields and in which
    - [lineHeight] is omitted if the pixel line height or the font size
      is missing, zero or NaN, and is [(lineHeightPx / fontSize)]
      followed by "em" in every other case;
    - [letterSpacing] is omitted if the letter spacing or the font size
      is missing, zero or NaN, and is
      [(letterSpacing / fontSize) * 100] followed by "%" in every other
      case. *)
Theorem parseNode_textStyle (n : Node.t) (parent : option Node.t)
    (s : SimplifiedNode.t SimplifiedLayout) :
  parse n parent = Ok s ->
  (Node.style n = None -> SimplifiedNode.textStyle s = None)
  /\ forall style, Node.style n = Some style ->
     exists ts,
       SimplifiedNode.textStyle s = Some ts
       (* line height *)
       /\ (unusable (TypeStyle.lineHeightPx style)
           \/ unusable (TypeStyle.fontSize style) ->
           TextStyle.lineHeight ts = None)
       /\ (forall px size,
             TypeStyle.lineHeightPx style = Some px -> usable px ->
             TypeStyle.fontSize style = Some size -> usable size ->
             TextStyle.lineHeight ts = Some (Number_toString (px / size)%float ++ "em"))
       (* letter spacing *)
       /\ (unusable (TypeStyle.letterSpacing style)
           \/ unusable (TypeStyle.fontSize style) ->
           TextStyle.letterSpacing ts = None)
       /\ (forall sp size,
             TypeStyle.letterSpacing style = Some sp -> usable sp ->
             TypeStyle.fontSize style = Some size -> usable size ->
             TextStyle.letterSpacing ts
             = Some (Number_toString ((sp / size) * 100)%float ++ "%"))
       (* the other fields *)
       /\ TextStyle.fontFamily ts = TypeStyle.fontFamily style
       /\ TextStyle.fontWeight ts = TypeStyle.fontWeight style
       /\ TextStyle.fontSize ts = TypeStyle.fontSize style
       /\ TextStyle.textCase ts = TypeStyle.textCase style
       /\ TextStyle.textAlignHorizontal ts = TypeStyle.textAlignHorizontal style
       /\ TextStyle.textAlignVertical ts = TypeStyle.textAlignVertical style.
Proof.
  intros Hok.
  destruct (parseNode_Ok_inv n parent s Hok)
    as [fills [strokes [children [_ [_ [_ ->]]]]]].
  cbn [simplified SimplifiedNode.textStyle]. split.
  - intros ->. reflexivity.
  - intros style ->. exists (style_of style). split; [reflexivity|].
    unfold parseStyle.
    cbn [TextStyle.lineHeight TextStyle.letterSpacing
         TextStyle.fontFamily TextStyle.fontWeight TextStyle.fontSize
         TextStyle.textCase TextStyle.textAlignHorizontal
         TextStyle.textAlignVertical].
    repeat match goal with |- _ /\ _ => split end; try reflexivity.
    + intros [H | H]; rewrite (truthy_unusable _ H), ?andb_false_r; reflexivity.
    + intros px size -> Hpx -> Hsize. cbn [truthy].
      now rewrite (truthy_usable _ Hpx), (truthy_usable _ Hsize).
    + intros [H | H]; rewrite (truthy_unusable _ H), ?andb_false_r; reflexivity.
    + intros sp size -> Hsp -> Hsize. cbn [truthy strict_neq_zero].
      now rewrite (truthy_strict_neq_zero _ (truthy_usable _ Hsp)),
        (truthy_usable _ Hsp), (truthy_usable _ Hsize).
Qed.

(** C8: what decides the presence of each optional attribute of the
    normalized node.  None is present without its source data being
    present and of the tested type, and none holds a placeholder.  The
    source data is enough for [textStyle], [fills], [strokes],
    [strokeDashes], [individualStrokeWeights], [opacity] and
    [borderRadius]; [text] needs a non-empty string besides,
    [strokeWeight] a non-empty normalized stroke list, [children] a
    non-empty child list.  [layout] is always attached; [boundingBox]
    and [fill] never are. *)
Theorem parseNode_presence (n : Node.t) (parent : option Node.t)
    (s : SimplifiedNode.t SimplifiedLayout) :
  parse n parent = Ok s ->
  (forall t, SimplifiedNode.text s = Some t
             <-> Node.characters n = Some t /\ t <> "")
  /\ (SimplifiedNode.textStyle s <> None <-> Node.style n <> None)
  /\ (SimplifiedNode.fills s <> None <-> exists paints, Node.fills n = Of paints)
  /\ (SimplifiedNode.strokes s <> None <-> exists paints, Node.strokes n = Of paints)
  /\ (forall w, SimplifiedNode.strokeWeight s = Some w
                <-> Node.strokeWeight n = Of w
                    /\ exists l, SimplifiedNode.strokes s = Some l /\ l <> [])
  /\ (forall d, SimplifiedNode.strokeDashes s = Some d <-> Node.strokeDashes n = Of d)
  /\ (forall w, SimplifiedNode.individualStrokeWeights s = Some w
                <-> Node.individualStrokeWeights n
                    = Some (RawStrokeWeights.mk
                              (Some (StrokeWeights.top w)) (Some (StrokeWeights.right w))
                              (Some (StrokeWeights.bottom w)) (Some (StrokeWeights.left w))))
  /\ (forall o, SimplifiedNode.opacity s = Some o <-> Node.opacity n = Of o)
  /\ (forall r, SimplifiedNode.borderRadius s = Some r
                <-> exists c, Node.cornerRadius n = Of c
                              /\ r = Number_toString c ++ "px")
  /\ (SimplifiedNode.children s <> None
      <-> exists cs, Node.children n = Some cs /\ cs <> [])
  /\ SimplifiedNode.layout s = Some (buildSimplifiedLayout n parent)
  /\ SimplifiedNode.boundingBox s = None
  /\ SimplifiedNode.fill s = None.
Proof.
  intros Hok.
  destruct (parseNode_fills_strokes_aux n parent s Hok) as [Hfills Hstrokes].
  destruct (parseNode_Ok_inv n parent s Hok)
    as [fills [strokes [children [_ [_ [Hc ->]]]]]].
  cbn [simplified SimplifiedNode.text SimplifiedNode.textStyle SimplifiedNode.fills
       SimplifiedNode.strokes SimplifiedNode.strokeWeight SimplifiedNode.strokeDashes
       SimplifiedNode.individualStrokeWeights SimplifiedNode.opacity
       SimplifiedNode.borderRadius SimplifiedNode.children SimplifiedNode.layout
       SimplifiedNode.boundingBox SimplifiedNode.fill] in *.
  repeat match goal with |- _ /\ _ => split end;
    try reflexivity; try assumption.
  - intros t. destruct (Node.characters n) as [[|c rest]|]; cbn [isTruthy].
    + split; [discriminate | intros [E Hne]; injection E as <-; now elim Hne].
    + split; [intros E; injection E as <-; split; [reflexivity | discriminate]
             | intros [E _]; exact E].
    + split; [discriminate | intros [E _]; discriminate].
  - destruct (Node.style n); cbn [option_map]; split; intros H; try discriminate;
      now try elim H.
  - intros w. destruct (Node.strokeWeight n) as [|w'|].
    + split; [discriminate | intros [E _]; discriminate].
    + destruct strokes as [[|f l]|]; cbn [strokes_length_truthy List.length Nat.eqb negb].
      * split; [discriminate|]. intros [_ [l [E Hne]]]. injection E as <-.
        now elim Hne.
      * split.
        -- intros E. injection E as <-. split; [reflexivity|].
           exists (f :: l). split; [reflexivity | discriminate].
        -- intros [E _]. now injection E as <-.
      * split; [discriminate|]. intros [_ [l [E _]]]. discriminate.
    + split; [discriminate | intros [E _]; discriminate].
  - intros d. destruct (Node.strokeDashes n); split; intros E;
      try discriminate; now injection E as <-.
  - intros [wt wr wb wl]. cbn [StrokeWeights.top StrokeWeights.right
      StrokeWeights.bottom StrokeWeights.left].
    destruct (Node.individualStrokeWeights n) as [[[t|] [r|] [b|] [l|]]|];
      split; intros E; try discriminate; injection E as <- <- <- <-; reflexivity.
  - intros o. destruct (Node.opacity n); split; intros E;
      try discriminate; now injection E as <-.
  - intros r. destruct (Node.cornerRadius n) as [|c|].
    + split; [discriminate | intros [c [E _]]; discriminate].
    + split.
      * intros E. injection E as <-. now exists c.
      * intros [c' [E ->]]. now injection E as <-.
    + split; [discriminate | intros [c [E _]]; discriminate].
  - unfold parseChildren in Hc. destruct (Node.children n) as [[|c cs]|].
    + injection Hc as <-. split; [intros H; now elim H|].
      intros [cs [E Hne]]. injection E as <-. now elim Hne.
    + cbn [List.length Nat.eqb negb] in Hc.
      destruct (mapM _ (c :: cs)) as [kids|e]; [|discriminate].
      injection Hc as <-. split; [|discriminate].
      intros _. exists (c :: cs). split; [reflexivity | discriminate].
    + injection Hc as <-. split; [intros H; now elim H|].
      intros [cs [E _]]. discriminate.
Qed.

(** C7, amended: on a tree with a paint of unrecognized tag, in the
    fills or strokes of any node at any depth, [parseNode] on the root
    returns no node: it ends in an exception, which is caught nowhere on
    the way up.  The paints are visited in the order of [all_paints]
    (a node's fills, its strokes, then its children from left to right);
    when [parsePaint] succeeds on every paint visited before the first
    one of unrecognized tag, the exception is the "Unknown paint type"
    error of that paint. *)
Theorem parseNode_unknown_paint (n : Node.t) (parent : option Node.t) :
  (exists p, paint_in p n /\ ~ In (Paint.type p) recognized_kinds) ->
  (exists e, parse n parent = Throw e)
  /\ (forall s, parse n parent <> Ok s)
  /\ exists before q after,
       all_paints n = (before ++ q :: after)%list
       /\ Forall (fun p => In (Paint.type p) recognized_kinds) before
       /\ paint_in q n
       /\ ~ In (Paint.type q) recognized_kinds
       /\ (Forall (fun p => exists fill, parsePaint p = Ok fill) before ->
           parse n parent = Throw (Error ("Unknown paint type: " ++ Paint.type q))).
Proof.
  intros [p [Hin Hp]]. apply paint_in_all_paints in Hin.
  pose proof (thrown_parseNode n parent) as Hthrown.
  destruct (first_unrecognized (all_paints n)) as [before [q [after [Hsplit [Hrec Hq]]]]];
    [now exists p|].
  assert (Hfails : exists e, parse n parent = Throw e).
  { destruct (parse n parent) as [s|e] eqn:E; [|now exists e].
    cbn [thrown] in Hthrown. symmetry in Hthrown.
    apply thrown_None_Forall in Hthrown. rewrite Hsplit in Hthrown.
    apply Forall_app in Hthrown. destruct Hthrown as [_ Hrest].
    inversion Hrest as [|? ? [fill Hfill] _]; subst.
    rewrite (parsePaint_unrecognized q Hq) in Hfill. discriminate Hfill. }
  split; [exact Hfails|]. split.
  { intros s Hs. destruct Hfails as [e He]. rewrite He in Hs. discriminate Hs. }
  exists before, q, after. split; [exact Hsplit|]. split; [exact Hrec|]. split.
  { apply paint_in_all_paints. rewrite Hsplit. apply in_or_app. right. now left. }
  split; [exact Hq|]. intros Hok.
  apply thrown_Throw. rewrite Hthrown. apply thrown_Throw.
  apply mapM_Throw_split. exists before, q, after.
  split; [exact Hsplit|]. split; [exact Hok|].
  exact (parsePaint_unrecognized q Hq).
Qed.

End NodeProperties.

(* ================================================================== *)
(** * The sample trees *)
(* ================================================================== *)

(** The end-to-end example of the design document. *)
Example card_parses : sample_parse card_node None = Ok card_simplified.
Proof. vm_compute. reflexivity. Qed.

Example empty_fills_parses :
  sample_parse empty_fills_node None = Ok empty_fills_simplified.
Proof. vm_compute. reflexivity. Qed.

Example bare_weight_parses :
  sample_parse bare_weight_node None = Ok bare_weight_simplified.
Proof. vm_compute. reflexivity. Qed.

Example emoji_tree_fails :
  sample_parse emoji_tree None = Throw (Error "Unknown paint type: EMOJI").
Proof. vm_compute. reflexivity. Qed.

Lemma parseNode_fills_strokes_witness :
  normalized_from (Node.fills card_node) (SimplifiedNode.fills card_simplified)
  /\ normalized_from (Node.strokes card_node) (SimplifiedNode.strokes card_simplified)
  /\ (SimplifiedNode.fills card_simplified <> None
      <-> exists paints, Node.fills card_node = Of paints)
  /\ (SimplifiedNode.strokes card_simplified <> None
      <-> exists paints, Node.strokes card_node = Of paints).
Proof.
  apply (parseNode_fills_strokes (option string) parent_id exact_decimal
           card_node None card_simplified).
  vm_compute. reflexivity.
Defined.

(** C3, as the design document has it, fails on a node whose fills are
    an empty array: the normalized node has [fills], an empty list. *)
Lemma empty_fills_kept :
  sample_parse empty_fills_node None = Ok empty_fills_simplified
  /\ ~ fills_only_from_nonempty (option string) empty_fills_node empty_fills_simplified.
Proof.
  split; [vm_compute; reflexivity|].
  unfold fills_only_from_nonempty. intros H.
  destruct H as [paints [E Hne]]; [discriminate|].
  injection E as <-. now apply Hne.
Qed.

Lemma parseNode_strokeWeight_witness :
  (forall w,
      SimplifiedNode.strokeWeight card_simplified = Some w
      <-> Node.strokeWeight card_node = Of w
          /\ exists l, SimplifiedNode.strokes card_simplified = Some l /\ l <> [])
  /\ (SimplifiedNode.strokes card_simplified = None
      \/ SimplifiedNode.strokes card_simplified = Some [] ->
      SimplifiedNode.strokeWeight card_simplified = None).
Proof.
  apply (parseNode_strokeWeight (option string) parent_id exact_decimal
           card_node None card_simplified).
  vm_compute. reflexivity.
Defined.

(** The stroke weight of a node without strokes is dropped. *)
Example bare_weight_dropped :
  Node.strokeWeight bare_weight_node = Of 2%float
  /\ SimplifiedNode.strokeWeight bare_weight_simplified = None.
Proof. split; reflexivity. Qed.

Lemma parseNode_textStyle_witness :
  exists ts,
    SimplifiedNode.textStyle title_simplified = Some ts
    /\ TextStyle.lineHeight ts = Some "1.5em"
    /\ TextStyle.letterSpacing ts = None
    /\ TextStyle.fontFamily ts = Some "Inter"
    /\ TextStyle.fontSize ts = Some 16%float.
Proof.
  destruct (parseNode_textStyle (option string) parent_id exact_decimal
              title_node (Some card_node) title_simplified)
    as [_ Hstyle]; [vm_compute; reflexivity|].
  destruct (Hstyle title_style eq_refl)
    as [ts [Hts [_ [Hline [Hzero [_ [Hfamily [_ [Hsize _]]]]]]]]].
  exists ts. split; [exact Hts|]. split.
  - rewrite (Hline 24%float 16%float); [vm_compute; reflexivity | | | |];
      try reflexivity; split; reflexivity.
  - split; [|split; [exact Hfamily | exact Hsize]].
    apply Hzero. left. left. reflexivity.
Defined.

(** C5, as the design document has it, fails on a text node with font
    size 0: both operands of each derived field are there and the letter
    spacing is not 0, yet neither field is emitted (the document would
    have "Infinityem" and "Infinity%"). *)
Lemma zero_font_size_omits :
  sample_parse zero_font_node None = Ok zero_font_simplified
  /\ ~ exists ts,
         SimplifiedNode.textStyle zero_font_simplified = Some ts
         /\ derived_as_stated exact_decimal zero_font_style ts.
Proof.
  split; [vm_compute; reflexivity|].
  intros [ts [Hts [Hline _]]].
  assert (E : TextStyle.lineHeight ts = None).
  { unfold zero_font_simplified in Hts. cbn [SimplifiedNode.textStyle] in Hts.
    apply Some_inj in Hts. now subst ts. }
  rewrite E in Hline. unfold zero_font_style in Hline.
  cbn [TypeStyle.lineHeightPx TypeStyle.fontSize] in Hline. discriminate Hline.
Qed.

(** C8, as the design document has it, fails on a node with a numeric
    stroke weight and no strokes (and with empty text content): the source
    data is present and of the tested type, the attributes are not. *)
Lemma presence_not_iff_source :
  sample_parse bare_weight_node None = Ok bare_weight_simplified
  /\ ~ present_iff_source (option string) bare_weight_node bare_weight_simplified.
Proof.
  split; [vm_compute; reflexivity|].
  intros [_ [_ [_ [_ [[_ Hweight] _]]]]].
  apply Hweight; [|reflexivity]. now exists 2%float.
Qed.

Lemma parseNode_presence_witness :
  SimplifiedNode.strokeWeight card_simplified = Some 2%float
  /\ SimplifiedNode.layout card_simplified = Some None
  /\ SimplifiedNode.borderRadius card_simplified = Some "8px".
Proof.
  pose proof (parseNode_presence (option string) parent_id exact_decimal
                card_node None card_simplified) as H.
  destruct H as [_ [_ [_ [_ [Hweight [_ [_ [_ [Hradius [_ [Hlayout _]]]]]]]]]]];
    [vm_compute; reflexivity|].
  split; [|split].
  - apply Hweight. split; [reflexivity|].
    eexists. split; [reflexivity | discriminate].
  - exact Hlayout.
  - apply Hradius. exists 8%float. split; [reflexivity|]. vm_compute. reflexivity.
Defined.

Lemma paint_in_emoji_tree : paint_in emoji_paint emoji_tree.
Proof.
  eapply paint_in_child; [reflexivity | right; left; reflexivity |].
  eapply paint_in_child; [reflexivity | left; reflexivity |].
  eapply paint_in_strokes; [reflexivity | right; left; reflexivity].
Qed.

Lemma emoji_not_recognized : ~ In (Paint.type emoji_paint) recognized_kinds.
Proof.
  unfold recognized_kinds, emoji_paint; simpl.
  intros H; repeat (destruct H as [H | H]; [discriminate H|]); exact H.
Qed.

Lemma parseNode_unknown_paint_witness :
  sample_parse emoji_tree None = Throw (Error "Unknown paint type: EMOJI").
Proof.
  destruct (parseNode_unknown_paint (option string) parent_id exact_decimal
              emoji_tree None)
    as [_ [_ [before [q [after [Hsplit [Hrec [_ [Hq Hthrow]]]]]]]]].
  { exists emoji_paint. split; [exact paint_in_emoji_tree | exact emoji_not_recognized]. }
  assert (Hfirst : before = [solid_black; solid_black; solid_red] /\ q = emoji_paint).
  { change (all_paints emoji_tree)
      with [solid_black; solid_black; solid_red; emoji_paint] in Hsplit.
    assert (Hblack : In (Paint.type solid_black) recognized_kinds)
      by (right; left; reflexivity).
    assert (Hred : In (Paint.type solid_red) recognized_kinds)
      by (right; left; reflexivity).
    destruct before as [|b1 [|b2 [|b3 [|b4 rest]]]]; cbn [app] in Hsplit.
    - apply (f_equal (fun l => hd q l)) in Hsplit. cbn [hd] in Hsplit.
      subst q. now elim Hq.
    - apply (f_equal (fun l => nth 1 l q)) in Hsplit. cbn [nth] in Hsplit.
      subst q. now elim Hq.
    - apply (f_equal (fun l => nth 2 l q)) in Hsplit. cbn [nth] in Hsplit.
      subst q. now elim Hq.
    - pose proof (f_equal (fun l => nth 0 l q) Hsplit) as E0.
      pose proof (f_equal (fun l => nth 1 l q) Hsplit) as E1.
      pose proof (f_equal (fun l => nth 2 l q) Hsplit) as E2.
      pose proof (f_equal (fun l => nth 3 l q) Hsplit) as E3.
      cbn [nth] in E0, E1, E2, E3. subst b1 b2 b3. now split.
    - apply (f_equal (@List.length Paint.t)) in Hsplit.
      cbn [List.length] in Hsplit. rewrite length_app in Hsplit.
      cbn [List.length] in Hsplit. lia. }
  destruct Hfirst as [-> ->]. apply Hthrow.
  repeat constructor; eexists; vm_compute; reflexivity.
Defined.

(** C7, as the design document has it, fails on a node whose strokes are
    a SOLID paint without color and then a paint of unrecognized tag:
    the transformation ends with the TypeError of the first. *)
Lemma typeerror_before_unknown_paint :
  paint_in emoji_paint malformed_first_node
  /\ ~ In (Paint.type emoji_paint) recognized_kinds
  /\ sample_parse malformed_first_node None = Throw TypeError
  /\ forall message, sample_parse malformed_first_node None <> Throw (Error message).
Proof.
  split; [|split; [exact emoji_not_recognized|]].
  - eapply paint_in_strokes; [reflexivity | right; left; reflexivity].
  - assert (E : sample_parse malformed_first_node None = Throw TypeError)
      by (vm_compute; reflexivity).
    split; [exact E|]. intros message. rewrite E. discriminate.
Qed.

(* ================================================================== *)
(** * More on colors *)
(* ================================================================== *)

(** A Number between 0 and a normalized integer constant is at most
    that integer. *)
Lemma at_most_of_leb (c : Z) (C x : Number) (mc : positive) (ec : Z) :
  Prim2SF C = S754_finite false mc ec ->
  ec <= 0 -> 2 ^ 52 <= Zpos mc -> Zpos mc = c * 2 ^ (- ec) ->
  (0 <=? x)%float = true -> (x <=? C)%float = true ->
  at_most c x.
Proof.
  intros EC Hec Hnorm Hmc Hlo Hhi. rewrite leb_spec in Hlo, Hhi.
  change (Prim2SF 0) with (S754_zero false) in Hlo. rewrite EC in Hhi.
  pose proof (Prim2SF_valid x) as Hvalid. unfold at_most.
  destruct (Prim2SF x) as [s | s | | s m e].
  - left. now exists s.
  - destruct s; [discriminate Hlo | discriminate Hhi].
  - discriminate Hlo.
  - right. exists m, e. destruct s; [discriminate Hlo|].
    split; [reflexivity|].
    unfold SFleb, SFcompare in Hhi.
    destruct (Z.compare_spec e ec) as [-> | Hlt | Hgt]; [| |discriminate Hhi].
    + split; [lia|]. rewrite <- Hmc.
      apply Pos2Z.pos_le_pos. unfold Pos.le, Pos.compare. intros Hgt.
      rewrite Hgt in Hhi. discriminate Hhi.
    + split; [lia|]. apply valid_mantissa_bound in Hvalid.
      assert (Hpow : 2 ^ (- e) = 2 ^ (- ec) * 2 ^ (ec - e)).
      { rewrite <- Z.pow_add_r by lia. f_equal. lia. }
      assert (H2 : 2 <= 2 ^ (ec - e)).
      { change 2 with (2 ^ 1) at 1. apply Z.pow_le_mono_r; lia. }
      rewrite Hpow, Z.mul_assoc, <- Hmc. change (2 ^ 53) with (2 * 2 ^ 52) in Hvalid.
      nia.
Qed.

(** The binary64 product of two Numbers that are at most [c1] and [c2]
    is at most [c1 * c2]. *)
Lemma at_most_mul (c1 c2 w : Z) (x y : Number) :
  0 < c1 -> 0 < c2 -> c1 * c2 < 2 ^ w -> 0 <= w <= 53 ->
  at_most c1 x -> at_most c2 y -> at_most (c1 * c2) (x * y)%float.
Proof.
  intros Hc1 Hc2 Hw Hw53 Hx Hy. unfold at_most. rewrite mul_spec.
  destruct Hx as [[sx ->] | [mx [ex [-> [Hex Hmx]]]]];
    destruct Hy as [[sy ->] | [my [ey [-> [Hey Hmy]]]]].
  - left. now exists (xorb sx sy).
  - left. now exists (xorb sx false).
  - left. now exists (xorb false sy).
  - unfold SF64mul, SFmul. cbn [xorb].
    assert (Hbound : Zpos (mx * my) <= c1 * c2 * 2 ^ (- (ex + ey))).
    { rewrite Pos2Z.inj_mul. replace (- (ex + ey)) with (- ex + - ey) by lia.
      rewrite Z.pow_add_r by lia.
      assert (0 < 2 ^ (- ex)) by (apply Z.pow_pos_nonneg; lia).
      assert (0 < 2 ^ (- ey)) by (apply Z.pow_pos_nonneg; lia).
      nia. }
    pose proof (binary_round_aux_bound (c1 * c2) w (Zpos (mx * my)) (ex + ey)) as H.
    destruct (binary_round_aux prec emax false (Zpos (mx * my)) (ex + ey) loc_Exact)
      as [s | s | | s m' e'].
    + left. now exists s.
    + exfalso. apply H; lia.
    + exfalso. apply H; lia.
    + right. exists m', e'. destruct H as [-> [He' Hm']]; try lia. auto.
Qed.

(** [Math.round] of a Number that is at most [c] is an integer from 0 to
    [c], or [-0]. *)
Lemma Math_round_at_most (c : Z) (y : Number) :
  0 <= c -> at_most c y ->
  Math_round y = NegZero \/ exists n, 0 <= n <= c /\ Math_round y = Int n.
Proof.
  intros Hc [[s E] | [m [e [E [He Hm]]]]]; unfold Math_round; rewrite E.
  - destruct s; [now left | right; exists 0; split; [lia | reflexivity]].
  - right. rewrite andb_false_r. exists (round_half_up false m e).
    split; [|reflexivity]. unfold round_half_up. cbn [cond_Zopp].
    assert (Hp : 0 < 2 ^ (- e)) by (apply Z.pow_pos_nonneg; lia).
    destruct (0 <=? e) eqn:Ee.
    + apply Z.leb_le in Ee. assert (e = 0) by lia. subst e.
      change (2 ^ (- 0)) with 1 in Hm. change (2 ^ 0) with 1. lia.
    + rewrite Z.pow_add_r by lia. change (2 ^ 1) with 2. split.
      * apply Z.div_pos; lia.
      * apply Z.lt_succ_r. apply Z.div_lt_upper_bound; nia.
Qed.

Lemma unit_interval_at_most (x : Number) : unit_interval x -> at_most 1 x.
Proof.
  intros [Hlo Hhi].
  apply (at_most_of_leb 1 1%float x 4503599627370496 (-52));
    try assumption; try reflexivity; lia.
Qed.

Lemma hundredths_checked : forallb hundredth_ok (seq 0 101) = true.
Proof. vm_compute. reflexivity. Qed.

(** X1 ([convertColor], opacity).  When the alpha channel and the
    opacity argument (if one is given) lie between 0 and 1, the opacity
    that [convertColor] returns lies between 0 and 1 as well, and it is
    one of the 101 hundredths [k / 100], [k] from 0 to 100: the product
    of the two factors never rounds above 100. *)
Theorem convertColor_opacity_range (color : RGBA.t) (opacity : option Number) :
  unit_interval (RGBA.a color) ->
  match opacity with Some o => unit_interval o | None => True end ->
  unit_interval (ColorValue.opacity (convertColor color opacity))
  /\ is_hundredth (ColorValue.opacity (convertColor color opacity)).
Proof.
  intros Ha Ho.
  set (o := match opacity with Some o => o | None => 1%float end).
  assert (Ho' : unit_interval o).
  { unfold o. destruct opacity; [exact Ho | split; reflexivity]. }
  assert (Hprod : at_most 100 (o * RGBA.a color * 100)%float).
  { change 100 with (1 * 1 * 100) at 1.
    apply (at_most_mul (1 * 1) 100 7); try lia.
    - apply (at_most_mul 1 1 1); try lia; now apply unit_interval_at_most.
    - apply (at_most_of_leb 100 100%float 100%float 7036874417766400 (-46));
        try reflexivity; lia. }
  assert (Hout : ColorValue.opacity (convertColor color opacity)
                 = (Number_of_Integral (Math_round (o * RGBA.a color * 100)) / 100)%float)
    by reflexivity.
  rewrite Hout.
  destruct (Math_round_at_most 100 _ ltac:(lia) Hprod) as [-> | [n [Hn ->]]].
  - split; [split; reflexivity|]. exists 0. split; [lia | reflexivity].
  - pose proof hundredths_checked as Hall. rewrite forallb_forall in Hall.
    assert (Hin : In (Z.to_nat n) (seq 0 101)) by (apply in_seq; lia).
    specialize (Hall _ Hin). unfold hundredth_ok in Hall.
    rewrite Z2Nat.id in Hall by lia. cbv zeta in Hall.
    cbn [Number_of_Integral].
    apply andb_prop in Hall. destruct Hall as [Hall Hself].
    apply andb_prop in Hall. destruct Hall as [Hlo Hhi].
    split; [split; assumption|]. exists n. split; [lia | exact Hself].
Qed.

Lemma convertColor_opacity_range_witness :
  unit_interval
    (ColorValue.opacity (convertColor (RGBA.mk 1 0.5 0 0.5)%float (Some 0.5%float)))
  /\ is_hundredth
       (ColorValue.opacity (convertColor (RGBA.mk 1 0.5 0 0.5)%float (Some 0.5%float))).
Proof.
  apply (convertColor_opacity_range (RGBA.mk 1 0.5 0 0.5)%float (Some 0.5%float));
    split; reflexivity.
Defined.

Lemma at_most_weaken (c d : Z) (x : Number) : c <= d -> at_most c x -> at_most d x.
Proof.
  intros Hcd [Hz | [m [e [E [He Hm]]]]]; [now left|].
  right. exists m, e. repeat split; try assumption.
  assert (0 < 2 ^ (- e)) by (apply Z.pow_pos_nonneg; lia). nia.
Qed.

(** The rounded channel of a Number that is at most [c]. *)
Lemma channel_at_most (c : Z) (x : Number) :
  0 < c -> c * 255 < 2 ^ 53 -> at_most c x ->
  0 <= scaled_channel x <= c * 255
  /\ (Math_round (x * 255)%float = Int (scaled_channel x)
      \/ (scaled_channel x = 0 /\ Math_round (x * 255)%float = NegZero)).
Proof.
  intros Hc Hw Hx.
  assert (Hprod : at_most (c * 255) (x * 255)%float).
  { apply (at_most_mul c 255 53); try lia; [exact Hx|]. right.
    exists 8972014882652160%positive, (-45).
    split; [reflexivity | split; [lia | apply Z.leb_le; reflexivity]]. }
  assert (Hv : exists q, Number_value (x * 255)%float = Some q).
  { unfold Number_value. destruct Hprod as [[s ->] | [m [e [-> _]]]]; eauto. }
  destruct Hv as [q Hq]. unfold scaled_channel. rewrite Hq.
  destruct (Math_round_at_most (c * 255) _ ltac:(lia) Hprod) as [Hn | [n [Hn Hi]]];
    destruct (Math_round_half_up _ _ Hq) as [Hr | [Hz Hr]].
  - rewrite Hn in Hr. discriminate Hr.
  - rewrite Hz. split; [lia | right; auto].
  - rewrite Hi in Hr. injection Hr as ->. split; [lia | left; exact Hi].
  - rewrite Hi in Hr. discriminate Hr.
Qed.

Lemma shl_Int_bounded (n k : Z) :
  0 <= n -> 0 <= k < 32 -> n * 2 ^ k < 2 ^ 31 -> shl (Int n) k = Int (n * 2 ^ k).
Proof.
  intros Hn Hk Hlt. unfold shl, ToInt32. f_equal.
  assert (Hp : 1 <= 2 ^ k) by (apply Z.lt_succ_r, Z.lt_pred_lt_succ; simpl; apply Z.pow_pos_nonneg; lia).
  rewrite (wrap32_small n) by nia.
  rewrite Z.mod_small by lia. rewrite Z.shiftl_mul_pow2 by lia.
  apply wrap32_small. nia.
Qed.

Lemma shl_channel_bounded (r : Integral) (n k : Z) :
  0 <= n -> 0 <= k < 32 -> n * 2 ^ k < 2 ^ 31 ->
  r = Int n \/ (n = 0 /\ r = NegZero) ->
  shl r k = Int (n * 2 ^ k).
Proof.
  intros Hn Hk Hlt [-> | [-> ->]]; [now apply shl_Int_bounded|].
  unfold shl, ToInt32. rewrite Z.shiftl_0_l. reflexivity.
Qed.

(** The digits of [T RR GG BB] for a leading digit [T] other than 0. *)
Lemma toString16_leading (T R G B : Z) :
  1 <= T < 16 -> 0 <= R < 256 -> 0 <= G < 256 -> 0 <= B < 256 ->
  toUpperCase (slice1 (toString16 (Int (T * 2 ^ 24 + R * 2 ^ 16 + G * 2 ^ 8 + B))))
  = hex2 R ++ hex2 G ++ hex2 B.
Proof.
  intros HT HR HG HB.
  set (v := T * 2 ^ 24 + R * 2 ^ 16 + G * 2 ^ 8 + B).
  assert (Hv : 2 ^ 24 <= v < 2 ^ 28) by (unfold v; lia).
  unfold toString16.
  assert (E : (v <? 0) = false) by (apply Z.ltb_ge; lia). rewrite E.
  unfold hex_of_nonneg.
  assert (Hlog : 24 <= Z.log2 v).
  { change 24 with (Z.log2 (2 ^ 24)). apply Z.log2_le_mono. lia. }
  assert (Hfuel : exists f, S (Z.to_nat (Z.log2 v)) = (7 + f)%nat).
  { exists (Z.to_nat (Z.log2 v) - 6)%nat. lia. }
  destruct Hfuel as [f ->]. cbn [Nat.add].
  pose proof (Z.div_mod R 16 ltac:(lia)) as ER.
  pose proof (Z.div_mod G 16 ltac:(lia)) as EG.
  pose proof (Z.div_mod B 16 ltac:(lia)) as EB.
  pose proof (Z.mod_pos_bound R 16 ltac:(lia)) as HR0.
  pose proof (Z.mod_pos_bound G 16 ltac:(lia)) as HG0.
  pose proof (Z.mod_pos_bound B 16 ltac:(lia)) as HB0.
  assert (HR1 : 0 <= R / 16 < 16)
    by (split; [apply Z.div_pos | apply Z.div_lt_upper_bound]; lia).
  assert (HG1 : 0 <= G / 16 < 16)
    by (split; [apply Z.div_pos | apply Z.div_lt_upper_bound]; lia).
  assert (HB1 : 0 <= B / 16 < 16)
    by (split; [apply Z.div_pos | apply Z.div_lt_upper_bound]; lia).
  replace v with
    ((((((T * 16 + R / 16) * 16 + R mod 16) * 16 + G / 16) * 16 + G mod 16) * 16
      + B / 16) * 16 + B mod 16) by (unfold v; lia).
  rewrite !hex_of_pos_step by lia.
  rewrite hex_of_pos_last by lia.
  cbn [slice1 toUpperCase].
  rewrite !upper_hex_digit by lia. reflexivity.
Qed.

(** The color string for a red channel of at most 15 and green and blue
    channels of at most 1. *)
Lemma convertColor_hex_at_most (color : RGBA.t) (opacity : option Number) :
  at_most 15 (RGBA.r color) -> at_most 1 (RGBA.g color) -> at_most 1 (RGBA.b color) ->
  ColorValue.hex (convertColor color opacity)
  = "#" ++ hex2 (scaled_channel (RGBA.r color) mod 256)
        ++ hex2 (scaled_channel (RGBA.g color))
        ++ hex2 (scaled_channel (RGBA.b color))
  /\ 0 <= scaled_channel (RGBA.r color) <= 3825
  /\ 0 <= scaled_channel (RGBA.g color) <= 255
  /\ 0 <= scaled_channel (RGBA.b color) <= 255.
Proof.
  intros Hr Hg Hb.
  destruct (channel_at_most 15 _ ltac:(lia) ltac:(lia) Hr) as [HR Er].
  destruct (channel_at_most 1 _ ltac:(lia) ltac:(lia) Hg) as [HG Eg].
  destruct (channel_at_most 1 _ ltac:(lia) ltac:(lia) Hb) as [HB Eb].
  repeat split; try lia.
  unfold convertColor. cbn [ColorValue.hex].
  change (shl (Int 1) 24) with (Int (2 ^ 24)).
  rewrite (shl_channel_bounded _ (scaled_channel (RGBA.r color)) 16) by (lia || exact Er).
  rewrite (shl_channel_bounded _ (scaled_channel (RGBA.g color)) 8) by (lia || exact Eg).
  rewrite !Number_add_small by lia.
  rewrite (add_channel _ (scaled_channel (RGBA.b color))) by (lia || exact Eb).
  set (R := scaled_channel (RGBA.r color)) in *.
  pose proof (Z.div_mod R 256 ltac:(lia)) as ER.
  pose proof (Z.mod_pos_bound R 256 ltac:(lia)) as HR0.
  assert (HT : 0 <= R / 256 < 15)
    by (split; [apply Z.div_pos | apply Z.div_lt_upper_bound]; lia).
  replace (2 ^ 24 + R * 2 ^ 16 + scaled_channel (RGBA.g color) * 2 ^ 8
           + scaled_channel (RGBA.b color))
    with ((1 + R / 256) * 2 ^ 24 + (R mod 256) * 2 ^ 16
          + scaled_channel (RGBA.g color) * 2 ^ 8 + scaled_channel (RGBA.b color))
    by lia.
  rewrite toString16_leading by lia. reflexivity.
Qed.

Lemma HEX_value_digit (d : Z) : 0 <= d < 16 -> HEX_value (HEX_digit d) = d.
Proof.
  intros Hd.
  assert (H : d = 0 \/ d = 1 \/ d = 2 \/ d = 3 \/ d = 4 \/ d = 5 \/ d = 6 \/ d = 7
              \/ d = 8 \/ d = 9 \/ d = 10 \/ d = 11 \/ d = 12 \/ d = 13 \/ d = 14
              \/ d = 15) by lia.
  repeat (destruct H as [-> | H]; [reflexivity|]). subst d. reflexivity.
Qed.

Lemma is_HEX_char_digit (d : Z) : is_HEX_char (HEX_digit d) = true.
Proof.
  destruct d as [|p|p]; try reflexivity.
  do 4 (destruct p as [p|p|]; try reflexivity).
Qed.

Lemma decode_hex2 (R G B : Z) :
  0 <= R < 256 -> 0 <= G < 256 -> 0 <= B < 256 ->
  decode_hex ("#" ++ hex2 R ++ hex2 G ++ hex2 B) = Some (R, G, B).
Proof.
  intros HR HG HB. unfold hex2. cbn [append decode_hex forallb].
  rewrite !is_HEX_char_digit. cbn [andb].
  assert (Hd : forall n, 0 <= n < 256 ->
                 HEX_value (HEX_digit (n / 16)) * 16 + HEX_value (HEX_digit (n mod 16)) = n).
  { intros n Hn. rewrite !HEX_value_digit.
    - pose proof (Z.div_mod n 16 ltac:(lia)). lia.
    - apply Z.mod_pos_bound. lia.
    - split; [apply Z.div_pos | apply Z.div_lt_upper_bound]; lia. }
  rewrite !Hd by assumption. reflexivity.
Qed.

(** X2 ([convertColor], round trip).  With the three color channels
    between 0 and 1, the hex string is ["#"] followed by exactly six
    characters, each a decimal digit or one of A to F, and reading them
    back as three two-digit hexadecimal numbers gives the three scaled
    channels: no channel spills into its neighbour and no digit is
    lost. *)
Theorem convertColor_hex_decodes (color : RGBA.t) (opacity : option Number) :
  unit_interval (RGBA.r color) ->
  unit_interval (RGBA.g color) ->
  unit_interval (RGBA.b color) ->
  decode_hex (ColorValue.hex (convertColor color opacity))
  = Some (scaled_channel (RGBA.r color),
          scaled_channel (RGBA.g color),
          scaled_channel (RGBA.b color)).
Proof.
  intros Hr Hg Hb.
  pose proof (unit_interval_at_most _ Hr) as Ar.
  pose proof (unit_interval_at_most _ Hg) as Ag.
  pose proof (unit_interval_at_most _ Hb) as Ab.
  destruct (convertColor_hex_at_most color opacity
              (at_most_weaken 1 15 _ ltac:(lia) Ar) Ag Ab) as [-> [_ [HG HB]]].
  destruct (channel_at_most 1 _ ltac:(lia) ltac:(lia) Ar) as [HR _].
  rewrite Z.mod_small by lia. apply decode_hex2; lia.
Qed.

Lemma convertColor_hex_decodes_witness :
  decode_hex (ColorValue.hex (convertColor (RGBA.mk 1 0.5 0 0.5)%float None))
  = Some (scaled_channel 1%float, scaled_channel 0.5%float, scaled_channel 0%float).
Proof.
  apply (convertColor_hex_decodes (RGBA.mk 1 0.5 0 0.5)%float None);
    split; reflexivity.
Defined.

(** A string with a character that is no hexadecimal digit stands for
    no color. *)
Example decode_hex_rejects :
  decode_hex "#G/8000" = None /\ decode_hex "#ff8000" = None
  /\ decode_hex "#FF800" = None.
Proof. repeat split. Qed.

Example convertColor_hex_decoded :
  decode_hex (ColorValue.hex (convertColor (RGBA.mk 1 0.5 0 0.5)%float None))
  = Some (255, 128, 0).
Proof. vm_compute. reflexivity. Qed.

(** X4 ([convertColor], red channel out of range).  The red channel is
    not clamped: for a red value between 0 and 15 (green and blue within
    0 to 1) the string still has six digits, and its red pair is the
    scaled red channel modulo 256; what exceeds 255 went into the digit
    that [slice(1)] cuts off. *)
Theorem convertColor_red_wraps (color : RGBA.t) (opacity : option Number) :
  (0 <=? RGBA.r color)%float = true -> (RGBA.r color <=? 15)%float = true ->
  unit_interval (RGBA.g color) ->
  unit_interval (RGBA.b color) ->
  ColorValue.hex (convertColor color opacity)
  = "#" ++ hex2 (scaled_channel (RGBA.r color) mod 256)
        ++ hex2 (scaled_channel (RGBA.g color))
        ++ hex2 (scaled_channel (RGBA.b color)).
Proof.
  intros Hlo Hhi Hg Hb.
  apply convertColor_hex_at_most.
  - apply (at_most_of_leb 15 15%float _ 8444249301319680 (-49));
      try assumption; try reflexivity; lia.
  - now apply unit_interval_at_most.
  - now apply unit_interval_at_most.
Qed.

Lemma convertColor_red_wraps_witness :
  ColorValue.hex (convertColor (RGBA.mk 2 0.5 0 1)%float None)
  = "#" ++ hex2 (scaled_channel 2%float mod 256)
        ++ hex2 (scaled_channel 0.5%float)
        ++ hex2 (scaled_channel 0%float).
Proof.
  apply (convertColor_red_wraps (RGBA.mk 2 0.5 0 1)%float None);
    try split; reflexivity.
Defined.

(** Twice full red comes out as FE: 510 modulo 256. *)
Example convertColor_double_red :
  ColorValue.hex (convertColor (RGBA.mk 2 0.5 0 1)%float None) = "#FE8000"
  /\ scaled_channel 2%float = 510.
Proof. split; vm_compute; reflexivity. Qed.

Lemma is_nan_Prim2SF (x : Number) : is_nan x = true -> Prim2SF x = S754_nan.
Proof.
  unfold is_nan. rewrite eqb_spec. destruct (Prim2SF x) as [s | s | | s m e]; cbn.
  - discriminate.
  - destruct s; discriminate.
  - reflexivity.
  - rewrite Z.compare_refl, Pos.compare_cont_refl. destruct s; discriminate.
Qed.

(** X3 ([convertColor], NaN).  The blue channel is added without a
    shift, so a NaN there makes the whole sum NaN: whatever the other
    channels are, the hex string is ["#AN"], what is left of ["NaN"]
    after [slice(1)] and [toUpperCase]. *)
Theorem convertColor_nan_blue (color : RGBA.t) (opacity : option Number) :
  is_nan (RGBA.b color) = true ->
  ColorValue.hex (convertColor color opacity) = "#AN".
Proof.
  intros Hb. unfold convertColor. cbn [ColorValue.hex].
  assert (E : Math_round (RGBA.b color * 255)%float = NotANumber).
  { unfold Math_round. rewrite mul_spec, (is_nan_Prim2SF _ Hb). reflexivity. }
  rewrite E.
  assert (Hadd : forall a, Number_add a NotANumber = NotANumber)
    by (intros [n| | |s]; reflexivity).
  rewrite Hadd. reflexivity.
Qed.

Lemma convertColor_nan_blue_witness :
  ColorValue.hex (convertColor (RGBA.mk 1 0.5 (0 / 0) 1)%float None) = "#AN".
Proof.
  apply (convertColor_nan_blue (RGBA.mk 1 0.5 (0 / 0) 1)%float None).
  vm_compute. reflexivity.
Defined.

(* ================================================================== *)
(** * More on paints *)
(* ================================================================== *)

(** X5 ([parsePaint], variants).  A fill that [parsePaint] returns has
    the tag of the raw paint and the attributes of that tag's variant
    only: an IMAGE fill copies [imageRef] and [scaleMode] and has no
    color and no gradient data; a SOLID fill has [hex] and [opacity] and
    nothing else; a gradient fill has stops, the handle positions of the
    raw paint, and no color or image data. *)
Theorem parsePaint_variant (raw : Paint.t) (fill : SimplifiedFill.t) :
  parsePaint raw = Ok fill ->
  SimplifiedFill.type fill = Paint.type raw
  /\ ((Paint.type raw = "IMAGE"
       /\ SimplifiedFill.imageRef fill = Paint.imageRef raw
       /\ SimplifiedFill.scaleMode fill = Paint.scaleMode raw
       /\ SimplifiedFill.hex fill = None
       /\ SimplifiedFill.opacity fill = None
       /\ SimplifiedFill.gradientHandlePositions fill = None
       /\ SimplifiedFill.gradientStops fill = None)
      \/ (Paint.type raw = "SOLID"
          /\ SimplifiedFill.hex fill <> None
          /\ SimplifiedFill.opacity fill <> None
          /\ SimplifiedFill.imageRef fill = None
          /\ SimplifiedFill.scaleMode fill = None
          /\ SimplifiedFill.gradientHandlePositions fill = None
          /\ SimplifiedFill.gradientStops fill = None)
      \/ (In (Paint.type raw) gradient_kinds
          /\ SimplifiedFill.gradientStops fill <> None
          /\ SimplifiedFill.gradientHandlePositions fill
             = Paint.gradientHandlePositions raw
          /\ SimplifiedFill.hex fill = None
          /\ SimplifiedFill.opacity fill = None
          /\ SimplifiedFill.imageRef fill = None
          /\ SimplifiedFill.scaleMode fill = None)).
Proof.
  unfold parsePaint.
  destruct (Paint.type raw =? "IMAGE")%string eqn:E1.
  { apply String.eqb_eq in E1. intros E. apply Ok_inj in E. subst fill.
    cbn [SimplifiedFill.type SimplifiedFill.hex
      SimplifiedFill.opacity SimplifiedFill.imageRef SimplifiedFill.scaleMode
      SimplifiedFill.gradientHandlePositions SimplifiedFill.gradientStops].
    split; [now symmetry|]. left. repeat split; assumption. }
  destruct (Paint.type raw =? "SOLID")%string eqn:E2.
  { apply String.eqb_eq in E2. destruct (Paint.color raw) as [color|];
      [|intros E; discriminate E].
    intros E. apply Ok_inj in E. subst fill.
    cbn [SimplifiedFill.type SimplifiedFill.hex
      SimplifiedFill.opacity SimplifiedFill.imageRef SimplifiedFill.scaleMode
      SimplifiedFill.gradientHandlePositions SimplifiedFill.gradientStops].
    split; [now symmetry|]. right; left.
    repeat split; try assumption; intros H; discriminate H. }
  destruct (includes gradient_kinds (Paint.type raw)) eqn:E3;
    [|intros E; discriminate E].
  apply includes_In in E3. destruct (Paint.gradientStops raw) as [stops|];
    [|intros E; discriminate E].
  intros E. apply Ok_inj in E. subst fill.
  cbn [SimplifiedFill.type SimplifiedFill.hex
      SimplifiedFill.opacity SimplifiedFill.imageRef SimplifiedFill.scaleMode
      SimplifiedFill.gradientHandlePositions SimplifiedFill.gradientStops].
  split; [reflexivity|]. right; right.
  repeat split; try assumption; intros H; discriminate H.
Qed.

(** X15 ([parsePaint], paint-level opacity).  Only a SOLID paint has
    its own opacity read: on any other paint the result, a fill or an
    exception, is the same whatever the paint-level opacity is; the
    opacity of an image or gradient paint is dropped. *)
Theorem parsePaint_opacity_only_solid (raw : Paint.t) (opacity : option Number) :
  Paint.type raw <> "SOLID" ->
  parsePaint (Paint_with_opacity raw opacity) = parsePaint raw.
Proof.
  intros Hnot. unfold parsePaint.
  cbn [Paint_with_opacity Paint.type Paint.color Paint.opacity Paint.imageRef
       Paint.scaleMode Paint.gradientHandlePositions Paint.gradientStops].
  destruct (Paint.type raw =? "IMAGE")%string; [reflexivity|].
  destruct (Paint.type raw =? "SOLID")%string eqn:E; [|reflexivity].
  apply String.eqb_eq in E. now elim Hnot.
Qed.

(* ================================================================== *)
(** * More on the node transformer *)
(* ================================================================== *)

Lemma mapM_map {A B C : Type} (g : A -> B) (f : B -> result C) (l : list A) :
  mapM f (map g l) = mapM (fun a => f (g a)) l.
Proof.
  induction l as [|a rest IH]; [reflexivity|].
  cbn [map mapM]. fold (mapM f). fold (mapM (fun a => f (g a))). now rewrite IH.
Qed.

Lemma flat_map_Forall2 {A B C : Type} (f : A -> list C) (g : B -> list C)
    (l : list A) (l' : list B) :
  Forall2 (fun a b => g b = f a) l l' -> flat_map g l' = flat_map f l.
Proof. induction 1 as [|a b l l' E _ IH]; cbn; [reflexivity | now rewrite E, IH]. Qed.

Section MoreNodeProperties.

Variable SimplifiedLayout : Type.
Variable buildSimplifiedLayout : Node.t -> option Node.t -> SimplifiedLayout.
Variable Number_toString : Number -> string.

Abbreviation parse' := (parseNode SimplifiedLayout buildSimplifiedLayout Number_toString).
Abbreviation layouts_of := (expected_layouts SimplifiedLayout buildSimplifiedLayout).
Abbreviation parseFile :=
  (parseFigmaFileResponse SimplifiedLayout buildSimplifiedLayout Number_toString).
Abbreviation parseNodes :=
  (parseFigmaResponse SimplifiedLayout buildSimplifiedLayout Number_toString).

(** X6 ([parseNode], text style).  On a node with a style, the
    [lineHeight] of the text style is present exactly when
    [lineHeightPx] and [fontSize] are both truthy, and [letterSpacing]
    exactly when [letterSpacing] and [fontSize] are both truthy: the
    test [style.letterSpacing !== 0] of the source changes nothing, and
    neither quotient is ever taken with a zero or NaN font size. *)
Theorem parseNode_style_guards (n : Node.t) (parent : option Node.t)
    (s : SimplifiedNode.t SimplifiedLayout) (style : TypeStyle.t) :
  parse' n parent = Ok s ->
  Node.style n = Some style ->
  exists ts,
    SimplifiedNode.textStyle s = Some ts
    /\ (TextStyle.lineHeight ts <> None
        <-> truthy (TypeStyle.lineHeightPx style) = true
            /\ truthy (TypeStyle.fontSize style) = true)
    /\ (TextStyle.letterSpacing ts <> None
        <-> truthy (TypeStyle.letterSpacing style) = true
            /\ truthy (TypeStyle.fontSize style) = true).
Proof.
  intros Hok Hstyle.
  destruct (parseNode_Ok_inv _ _ _ n parent s Hok)
    as [fills [strokes [children [_ [_ [_ ->]]]]]].
  cbn [simplified SimplifiedNode.textStyle]. rewrite Hstyle. cbn [option_map].
  eexists. split; [reflexivity|].
  destruct style as [ff fw fs lh ls tc tah tav].
  cbn [parseStyle TextStyle.lineHeight TextStyle.letterSpacing
       TypeStyle.fontSize TypeStyle.lineHeightPx TypeStyle.letterSpacing].
  split.
  - destruct lh as [px|], fs as [size|]; cbn [truthy andb].
    + destruct (Number_truthy px), (Number_truthy size); cbn [andb];
        split; try discriminate; try (intros H; now elim H);
        try (intros [H1 H2]; discriminate); auto.
    + rewrite andb_false_r. split; [intros H; now elim H | intros [_ H]; discriminate].
    + split; [intros H; now elim H | intros [H _]; discriminate].
    + split; [intros H; now elim H | intros [H _]; discriminate].
  - destruct ls as [sp|], fs as [size|]; cbn [truthy strict_neq_zero andb].
    + assert (Hnz : Number_truthy sp = true -> Number_strict_neq sp 0%float = true).
      { unfold Number_truthy, is_zero, Number_strict_neq.
        change zero with 0%float. destruct (sp =? 0)%float; [|reflexivity].
        rewrite orb_true_r. discriminate. }
      destruct (Number_truthy sp) eqn:Esp; cbn [andb].
      * rewrite (Hnz eq_refl). cbn [andb].
        destruct (Number_truthy size); split; try discriminate;
          try (intros H; now elim H); try (intros [H1 H2]; discriminate); auto.
      * split; [intros H; now elim H | intros [H _]; discriminate].
    + rewrite andb_false_r. split; [intros H; now elim H | intros [_ H]; discriminate].
    + split; [intros H; now elim H | intros [H _]; discriminate].
    + split; [intros H; now elim H | intros [H _]; discriminate].
Qed.

(** X7 ([parseNode], exceptions).  [parseNode] raises [e] exactly when
    some paint of the tree, in the order fills, strokes, children from
    left to right, makes [parsePaint] raise [e] while [parsePaint]
    succeeds on every paint before it; and [parseNode] returns a node
    exactly when [parsePaint] succeeds on every paint of the tree.  The
    parent argument plays no part. *)
Theorem parseNode_first_exception (n : Node.t) (parent : option Node.t) :
  (forall e,
      parse' n parent = Throw e
      <-> exists before p after,
            all_paints n = (before ++ p :: after)%list
            /\ Forall (fun q => exists fill, parsePaint q = Ok fill) before
            /\ parsePaint p = Throw e)
  /\ ((exists s, parse' n parent = Ok s)
      <-> Forall (fun q => exists fill, parsePaint q = Ok fill) (all_paints n)).
Proof.
  pose proof (thrown_parseNode _ buildSimplifiedLayout Number_toString n parent) as Ht.
  split.
  - intros e. now rewrite <- mapM_Throw_split, <- !thrown_Throw, Ht.
  - rewrite <- thrown_None_Forall, <- Ht.
    destruct (parse' n parent) as [s|e]; cbn [thrown]; split.
    + reflexivity.
    + intros _. now exists s.
    + intros [s Hs]. discriminate Hs.
    + intros H; discriminate H.
Qed.

(** The children of the node [parseNode] returns. *)
Lemma parseNode_children (n : Node.t) (parent : option Node.t)
    (s : SimplifiedNode.t SimplifiedLayout) :
  parse' n parent = Ok s ->
  SimplifiedNode.id s = Node.id n
  /\ SimplifiedNode.name s = Node.name n
  /\ SimplifiedNode.type s = Node.type n
  /\ SimplifiedNode.layout s = Some (buildSimplifiedLayout n parent)
  /\ match Node.children n with
     | Some (c :: cs) =>
         exists ks, SimplifiedNode.children s = Some ks
                    /\ Forall2 (fun child k => parse' child (Some n) = Ok k) (c :: cs) ks
     | _ => SimplifiedNode.children s = None
     end.
Proof.
  intros Hok.
  destruct (parseNode_Ok_inv _ _ _ n parent s Hok)
    as [fills [strokes [children [_ [_ [Hc ->]]]]]].
  cbn [simplified SimplifiedNode.id SimplifiedNode.name SimplifiedNode.type
       SimplifiedNode.layout SimplifiedNode.children].
  repeat split. unfold parseChildren in Hc.
  destruct (Node.children n) as [[|c cs]|].
  - now injection Hc as <-.
  - cbn [List.length Nat.eqb negb] in Hc.
    destruct (mapM (fun child => parse' child (Some n)) (c :: cs)) as [kids|e] eqn:Em;
      [|discriminate].
    cbn [bind] in Hc. injection Hc as <-. exists kids. split; [reflexivity|].
    now apply mapM_Ok_Forall2.
  - now injection Hc as <-.
Qed.

Lemma map_flat_map_list {A B C : Type} (f : B -> C) (g : A -> list B) (l : list A) :
  map f (flat_map g l) = flat_map (fun x => map f (g x)) l.
Proof. induction l as [|x l IH]; cbn; [reflexivity | now rewrite map_app, IH]. Qed.

(** The simplified tree has the nodes of the raw tree, and each carries
    the layout computed from its raw node and that node's parent. *)
Lemma parseNode_tree (n : Node.t) :
  forall (parent : option Node.t) (s : SimplifiedNode.t SimplifiedLayout),
    parse' n parent = Ok s ->
    simplified_labels s = node_labels n
    /\ simplified_layouts s = map Some (layouts_of n parent).
Proof.
  induction n as [n IH] using Node_induction. intros parent s Hok.
  destruct (parseNode_children n parent s Hok) as [Hid [Hname [Htype [Hlayout Hkids]]]].
  destruct s as [sid sname stype bb tx ts fl fls sks op br ly sw sd isw kids].
  cbn [SimplifiedNode.id SimplifiedNode.name SimplifiedNode.type SimplifiedNode.layout
       SimplifiedNode.children] in *. subst sid sname stype ly.
  destruct n as [i nm ty ch st fi sk w d iw o cr cs].
  cbn [simplified_labels simplified_layouts node_labels expected_layouts map
       SimplifiedNode.id SimplifiedNode.name SimplifiedNode.type SimplifiedNode.layout
       SimplifiedNode.children Node.id Node.name Node.type Node.children] in *.
  destruct cs as [[|c cs]|].
  - subst kids. split; reflexivity.
  - destruct Hkids as [ks [-> Hall]].
    set (node := Node.mk i nm ty ch st fi sk w d iw o cr (Some (c :: cs))) in *.
    assert (H : Forall2 (fun child k =>
                           simplified_labels k = node_labels child
                           /\ simplified_layouts k = map Some (layouts_of child (Some node)))
                        (c :: cs) ks).
    { clear Hok. clearbody node. revert IH Hall. generalize (c :: cs). intros l IH Hall.
      induction Hall as [|child k l l' Hk _ IHl]; [constructor|].
      inversion IH as [|? ? Hc Hrest]; subst.
      constructor; [exact (Hc _ _ Hk) | exact (IHl Hrest)]. }
    split.
    + f_equal. apply flat_map_Forall2.
      revert H. apply Forall2_impl. intros a b [E _]. exact E.
    + f_equal. rewrite map_flat_map_list. apply flat_map_Forall2.
      revert H. apply Forall2_impl. intros a b [_ E]. exact E.
  - subst kids. split; reflexivity.
Qed.

(** X8 ([parseNode], shape).  The simplified tree has the nodes of the
    raw tree: the same identifiers, names and types, in the same
    document order, at any depth; no node is dropped, added or
    reordered. *)
Theorem parseNode_keeps_nodes (n : Node.t) (parent : option Node.t)
    (s : SimplifiedNode.t SimplifiedLayout) :
  parse' n parent = Ok s -> simplified_labels s = node_labels n.
Proof. intros Hok. exact (proj1 (parseNode_tree n parent s Hok)). Qed.

(** X9 ([parseNode], layout).  Every node of the simplified tree has a
    layout, and it is the one [buildSimplifiedLayout] computes from the
    node's raw counterpart and that node's own parent in the raw tree:
    the root gets the parent [parseNode] was called with, each child
    gets the node it hangs under. *)
Theorem parseNode_layout_parents (n : Node.t) (parent : option Node.t)
    (s : SimplifiedNode.t SimplifiedLayout) :
  parse' n parent = Ok s ->
  simplified_layouts s = map Some (layouts_of n parent).
Proof. intros Hok. exact (proj2 (parseNode_tree n parent s Hok)). Qed.

(** X10 ([parseNode], the parent argument).  The parent handed to
    [parseNode] decides nothing but the layout of the root: with another
    parent the call raises the same exception, or returns the same node
    with the root's layout recomputed. *)
Theorem parseNode_parent_only_layout (n : Node.t) (p1 p2 : option Node.t) :
  match parse' n p1 with
  | Ok s => parse' n p2 = Ok (with_layout s (Some (buildSimplifiedLayout n p2)))
  | Throw e => parse' n p2 = Throw e
  end.
Proof.
  rewrite !(parseNode_unfold _ buildSimplifiedLayout Number_toString).
  destruct (parsePaints (Node.fills n)) as [fills|e]; [|reflexivity].
  destruct (parsePaints (Node.strokes n)) as [strokes|e]; [|reflexivity].
  destruct (parseChildren _ buildSimplifiedLayout Number_toString n) as [kids|e];
    reflexivity.
Qed.

(** X11 ([parseNode], what it never emits).  In every node of the
    tree [parseNode] returns, at any depth: [boundingBox] and [fill] are
    absent, [layout] is present, [text] is never the empty string, and
    [children] is never an empty list. *)
Theorem parseNode_output_invariants (n : Node.t) :
  forall (parent : option Node.t) (s : SimplifiedNode.t SimplifiedLayout),
    parse' n parent = Ok s ->
    Forall (fun k =>
              SimplifiedNode.boundingBox k = None
              /\ SimplifiedNode.fill k = None
              /\ SimplifiedNode.layout k <> None
              /\ SimplifiedNode.text k <> Some ""
              /\ SimplifiedNode.children k <> Some [])
           (simplified_subnodes s).
Proof.
  induction n as [n IH] using Node_induction. intros parent s Hok.
  pose proof (parseNode_children n parent s Hok) as [_ [_ [_ [_ Hkids]]]].
  destruct (parseNode_Ok_inv _ _ _ n parent s Hok)
    as [fills [strokes [children [_ [_ [_ Hs]]]]]].
  subst s. unfold simplified in *.
  cbn [simplified_subnodes SimplifiedNode.children] in *.
  constructor.
  - cbn [SimplifiedNode.boundingBox SimplifiedNode.fill SimplifiedNode.layout
         SimplifiedNode.text SimplifiedNode.children].
    repeat split.
    + intros H; discriminate H.
    + destruct (Node.characters n) as [[|c rest]|]; cbn [isTruthy];
        intros H; discriminate H.
    + destruct (Node.children n) as [[|c cs]|].
      * subst children. intros H; discriminate H.
      * destruct Hkids as [ks [-> Hall]]. inversion Hall; intros Hn; discriminate Hn.
      * subst children. intros H; discriminate H.
  - destruct (Node.children n) as [[|c cs]|]; try (subst children; constructor).
    destruct Hkids as [ks [-> Hall]].
    clear Hok. revert IH Hall. generalize (c :: cs). intros l IH Hall.
    induction Hall as [|child k l l' Hk _ IHl]; [constructor|].
    inversion IH as [|? ? Hc Hrest]; subst. cbn [flat_map].
    apply Forall_app. split; [exact (Hc _ _ Hk) | exact (IHl Hrest)].
Qed.

(* ------------------------------------------------------------------ *)
(** ** The response parsers *)
(* ------------------------------------------------------------------ *)

(** The first exception over the top-level nodes of a response. *)
Lemma thrown_top_level (nodes : list Node.t) :
  thrown (mapM (fun n => parse' n None) nodes)
  = thrown (mapM parsePaint (flat_map all_paints nodes)).
Proof.
  induction nodes as [|n rest IH]; [reflexivity|].
  cbn [flat_map]. rewrite thrown_mapM_cons, thrown_mapM_app, IH.
  now rewrite (thrown_parseNode _ buildSimplifiedLayout Number_toString n None).
Qed.

(** X12 ([parseFigmaFileResponse], result).  When it returns, the
    design has the name and the modification date of the response; its
    thumbnail is always a string, empty exactly when the response has
    none or an empty one, and the response's own otherwise; its nodes
    are the top-level nodes of the document, each transformed by
    [parseNode] without a parent, so that the design has the nodes of
    the document in document order, each with the layout of its raw
    counterpart (the top-level ones computed with no parent). *)
Theorem parseFigmaFileResponse_Ok (data : GetFileResponse.t)
    (design : SimplifiedDesign.t SimplifiedLayout) :
  parseFile data = Ok design ->
  let top := DocumentNode.children (GetFileResponse.document data) in
  SimplifiedDesign.name design = GetFileResponse.name data
  /\ SimplifiedDesign.lastModified design = GetFileResponse.lastModified data
  /\ (exists url, SimplifiedDesign.thumbnailUrl design = Some url
                  /\ (url = "" <-> GetFileResponse.thumbnailUrl data = None
                                   \/ GetFileResponse.thumbnailUrl data = Some "")
                  /\ (url <> "" -> GetFileResponse.thumbnailUrl data = Some url))
  /\ Forall2 (fun n s => parse' n None = Ok s) top (SimplifiedDesign.nodes design)
  /\ flat_map simplified_labels (SimplifiedDesign.nodes design)
     = flat_map node_labels top
  /\ flat_map simplified_layouts (SimplifiedDesign.nodes design)
     = map Some (flat_map (fun n => layouts_of n None) top).
Proof.
  unfold parseFigmaFileResponse. intros Hok. cbv zeta.
  set (top := DocumentNode.children (GetFileResponse.document data)) in *.
  destruct (mapM (fun n => parse' n None) top) as [ss|e] eqn:Em;
    [|discriminate Hok].
  cbn [bind] in Hok. apply Ok_inj in Hok. subst design.
  cbn [SimplifiedDesign.name SimplifiedDesign.lastModified SimplifiedDesign.thumbnailUrl
       SimplifiedDesign.nodes].
  apply mapM_Ok_Forall2 in Em.
  split; [reflexivity|]. split; [reflexivity|]. split.
  { eexists. split; [reflexivity|].
    destruct (GetFileResponse.thumbnailUrl data) as [[|c rest]|]; cbn [string_or].
    - split; [split; auto | intros H; now elim H].
    - split; [split; [discriminate | intros [H|H]; discriminate H] | reflexivity].
    - split; [split; auto | intros H; now elim H]. }
  split; [exact Em|]. split.
  - apply flat_map_Forall2.
    induction Em as [|n s l l' Hs _ IHl]; constructor; [|assumption].
    exact (proj1 (parseNode_tree n None s Hs)).
  - rewrite map_flat_map_list. apply flat_map_Forall2.
    induction Em as [|n s l l' Hs _ IHl]; constructor; [|assumption].
    exact (proj2 (parseNode_tree n None s Hs)).
Qed.

(** X13 ([parseFigmaFileResponse], exceptions).  It raises [e] exactly
    when some paint below the document, in document order, makes
    [parsePaint] raise [e] while [parsePaint] succeeds on every paint
    before it; it returns a design exactly when [parsePaint] succeeds on
    every paint below the document.  One bad paint anywhere loses the
    whole file. *)
Theorem parseFigmaFileResponse_first_exception (data : GetFileResponse.t) :
  let paints :=
    flat_map all_paints (DocumentNode.children (GetFileResponse.document data)) in
  (forall e,
      parseFile data = Throw e
      <-> exists before p after,
            paints = (before ++ p :: after)%list
            /\ Forall (fun q => exists fill, parsePaint q = Ok fill) before
            /\ parsePaint p = Throw e)
  /\ ((exists design, parseFile data = Ok design)
      <-> Forall (fun q => exists fill, parsePaint q = Ok fill) paints).
Proof.
  intros paints.
  pose proof (thrown_top_level (DocumentNode.children (GetFileResponse.document data)))
    as Ht. fold paints in Ht.
  assert (Hf : thrown (parseFile data) = thrown (mapM parsePaint paints)).
  { rewrite <- Ht. unfold parseFigmaFileResponse. rewrite thrown_bind.
    now destruct (mapM _ _). }
  split.
  - intros e. now rewrite <- mapM_Throw_split, <- !thrown_Throw, Hf.
  - rewrite <- thrown_None_Forall, <- Hf.
    destruct (parseFile data) as [d|e]; cbn [thrown]; split.
    + reflexivity.
    + intros _. now exists d.
    + intros [d Hd]. discriminate Hd.
    + intros H; discriminate H.
Qed.

(** X14 ([parseFigmaResponse] against [parseFigmaFileResponse]).  On a
    nodes response, [parseFigmaResponse] does what
    [parseFigmaFileResponse] does on the file with the same name, date
    and thumbnail whose top-level nodes are the documents of the
    entries, in enumeration order: it raises the same exception, or
    returns the same design, but for the thumbnail, which it passes on
    as it is (an absent one stays absent, where the file parser puts the
    empty string). *)
Theorem parseFigmaResponse_as_file (data : GetFileNodesResponse.t) :
  let file :=
    {| GetFileResponse.name := GetFileNodesResponse.name data;
       GetFileResponse.lastModified := GetFileNodesResponse.lastModified data;
       GetFileResponse.thumbnailUrl := GetFileNodesResponse.thumbnailUrl data;
       GetFileResponse.document :=
         {| DocumentNode.children :=
              map NodeEntry.document (Object_values (GetFileNodesResponse.nodes data)) |} |} in
  match parseFile file with
  | Ok design =>
      parseNodes data
      = Ok {| SimplifiedDesign.name := SimplifiedDesign.name design;
              SimplifiedDesign.lastModified := SimplifiedDesign.lastModified design;
              SimplifiedDesign.thumbnailUrl := GetFileNodesResponse.thumbnailUrl data;
              SimplifiedDesign.nodes := SimplifiedDesign.nodes design |}
  | Throw e => parseNodes data = Throw e
  end.
Proof.
  intros file. unfold parseFigmaFileResponse, parseFigmaResponse, file.
  cbn [GetFileResponse.document DocumentNode.children GetFileResponse.name
       GetFileResponse.lastModified GetFileResponse.thumbnailUrl].
  rewrite mapM_map.
  destruct (mapM _ (Object_values (GetFileNodesResponse.nodes data))) as [ss|e];
    reflexivity.
Qed.

End MoreNodeProperties.

(* ================================================================== *)
(** * The sample trees and responses, again *)
(* ================================================================== *)

Lemma parsePaint_variant_witness :
  SimplifiedFill.type (solid_fill "#FF0000" 1%float) = Paint.type solid_red
  /\ ((Paint.type solid_red = "IMAGE"
       /\ SimplifiedFill.imageRef (solid_fill "#FF0000" 1%float) = Paint.imageRef solid_red
       /\ SimplifiedFill.scaleMode (solid_fill "#FF0000" 1%float) = Paint.scaleMode solid_red
       /\ SimplifiedFill.hex (solid_fill "#FF0000" 1%float) = None
       /\ SimplifiedFill.opacity (solid_fill "#FF0000" 1%float) = None
       /\ SimplifiedFill.gradientHandlePositions (solid_fill "#FF0000" 1%float) = None
       /\ SimplifiedFill.gradientStops (solid_fill "#FF0000" 1%float) = None)
      \/ (Paint.type solid_red = "SOLID"
          /\ SimplifiedFill.hex (solid_fill "#FF0000" 1%float) <> None
          /\ SimplifiedFill.opacity (solid_fill "#FF0000" 1%float) <> None
          /\ SimplifiedFill.imageRef (solid_fill "#FF0000" 1%float) = None
          /\ SimplifiedFill.scaleMode (solid_fill "#FF0000" 1%float) = None
          /\ SimplifiedFill.gradientHandlePositions (solid_fill "#FF0000" 1%float) = None
          /\ SimplifiedFill.gradientStops (solid_fill "#FF0000" 1%float) = None)
      \/ (In (Paint.type solid_red) gradient_kinds
          /\ SimplifiedFill.gradientStops (solid_fill "#FF0000" 1%float) <> None
          /\ SimplifiedFill.gradientHandlePositions (solid_fill "#FF0000" 1%float)
             = Paint.gradientHandlePositions solid_red
          /\ SimplifiedFill.hex (solid_fill "#FF0000" 1%float) = None
          /\ SimplifiedFill.opacity (solid_fill "#FF0000" 1%float) = None
          /\ SimplifiedFill.imageRef (solid_fill "#FF0000" 1%float) = None
          /\ SimplifiedFill.scaleMode (solid_fill "#FF0000" 1%float) = None)).
Proof.
  apply (parsePaint_variant solid_red (solid_fill "#FF0000" 1%float)).
  vm_compute. reflexivity.
Defined.

Lemma parsePaint_opacity_only_solid_witness :
  parsePaint (Paint_with_opacity linear_gradient (Some 0.5%float))
  = parsePaint linear_gradient.
Proof.
  apply (parsePaint_opacity_only_solid linear_gradient (Some 0.5%float)).
  intros H; discriminate H.
Defined.

Lemma parseNode_style_guards_witness :
  exists ts,
    SimplifiedNode.textStyle title_simplified = Some ts
    /\ (TextStyle.lineHeight ts <> None
        <-> truthy (TypeStyle.lineHeightPx title_style) = true
            /\ truthy (TypeStyle.fontSize title_style) = true)
    /\ (TextStyle.letterSpacing ts <> None
        <-> truthy (TypeStyle.letterSpacing title_style) = true
            /\ truthy (TypeStyle.fontSize title_style) = true).
Proof.
  apply (parseNode_style_guards (option string) parent_id exact_decimal
           title_node (Some card_node) title_simplified title_style).
  - vm_compute. reflexivity.
  - reflexivity.
Defined.

(** The malformed node raises the TypeError of its first stroke, not the
    error of the unrecognized paint after it. *)
Lemma parseNode_first_exception_witness :
  sample_parse malformed_first_node None = Throw TypeError.
Proof.
  destruct (parseNode_first_exception (option string) parent_id exact_decimal
              malformed_first_node None) as [Hthrow _].
  apply Hthrow. exists [], solid_without_color, [emoji_paint].
  split; [reflexivity|]. split; [constructor | reflexivity].
Defined.

Lemma parseNode_keeps_nodes_witness :
  simplified_labels card_simplified = node_labels card_node.
Proof.
  apply (parseNode_keeps_nodes (option string) parent_id exact_decimal card_node None).
  vm_compute. reflexivity.
Defined.

Example card_labels :
  node_labels card_node = [("1:1", "Card", "FRAME"); ("1:2", "Title", "TEXT")].
Proof. reflexivity. Qed.

Lemma parseNode_layout_parents_witness :
  simplified_layouts card_simplified
  = map Some (expected_layouts (option string) parent_id card_node None).
Proof.
  apply (parseNode_layout_parents (option string) parent_id exact_decimal card_node None).
  vm_compute. reflexivity.
Defined.

(** With the sample collaborator the layouts name the parents: none for
    the card, the card for the title. *)
Example card_layouts :
  simplified_layouts card_simplified = [Some None; Some (Some "1:1")].
Proof. reflexivity. Qed.

(** The title, transformed on its own and below the card. *)
Example title_parent_only_layout :
  sample_parse title_node (Some card_node) = Ok title_simplified
  /\ sample_parse title_node None = Ok (with_layout title_simplified (Some None)).
Proof. split; vm_compute; reflexivity. Qed.

Lemma parseNode_output_invariants_witness :
  Forall (fun k : SimplifiedNode.t (option string) =>
            SimplifiedNode.boundingBox k = None
            /\ SimplifiedNode.fill k = None
            /\ SimplifiedNode.layout k <> None
            /\ SimplifiedNode.text k <> Some ""
            /\ SimplifiedNode.children k <> Some [])
         (simplified_subnodes card_simplified).
Proof.
  apply (parseNode_output_invariants (option string) parent_id exact_decimal
           card_node None card_simplified).
  vm_compute. reflexivity.
Defined.

Lemma parseFigmaFileResponse_Ok_witness :
  let top := DocumentNode.children (GetFileResponse.document sample_file) in
  SimplifiedDesign.name sample_design = GetFileResponse.name sample_file
  /\ SimplifiedDesign.lastModified sample_design = GetFileResponse.lastModified sample_file
  /\ (exists url, SimplifiedDesign.thumbnailUrl sample_design = Some url
                  /\ (url = "" <-> GetFileResponse.thumbnailUrl sample_file = None
                                   \/ GetFileResponse.thumbnailUrl sample_file = Some "")
                  /\ (url <> "" -> GetFileResponse.thumbnailUrl sample_file = Some url))
  /\ Forall2 (fun n s => sample_parse n None = Ok s) top (SimplifiedDesign.nodes sample_design)
  /\ flat_map simplified_labels (SimplifiedDesign.nodes sample_design)
     = flat_map node_labels top
  /\ flat_map simplified_layouts (SimplifiedDesign.nodes sample_design)
     = map Some (flat_map (fun n => expected_layouts (option string) parent_id n None) top).
Proof.
  apply (parseFigmaFileResponse_Ok (option string) parent_id exact_decimal
           sample_file sample_design).
  vm_compute. reflexivity.
Defined.

(** The broken file is lost to the TypeError of its second node. *)
Lemma parseFigmaFileResponse_first_exception_witness :
  parseFigmaFileResponse (option string) parent_id exact_decimal broken_file
  = Throw TypeError.
Proof.
  destruct (parseFigmaFileResponse_first_exception (option string) parent_id
              exact_decimal broken_file) as [Hthrow _].
  apply Hthrow.
  exists [solid_red; solid_black; solid_black], solid_without_color, [emoji_paint].
  split; [reflexivity|]. split; [|reflexivity].
  repeat constructor; eexists; vm_compute; reflexivity.
Defined.

(** The two entry points on the same top-level nodes: the thumbnail is
    the only difference. *)
Example parseFigmaResponse_sample :
  parseFigmaResponse (option string) parent_id exact_decimal
    (GetFileNodesResponse.mk "Demo" "2024-05-01T10:00:00Z" None
       [("1:1", NodeEntry.mk card_node); ("2:1", NodeEntry.mk empty_fills_node)])
  = Ok (SimplifiedDesign.mk "Demo" "2024-05-01T10:00:00Z" None
          [card_simplified; empty_fills_simplified])
  /\ parseFigmaFileResponse (option string) parent_id exact_decimal sample_file
     = Ok sample_design.
Proof. split; vm_compute; reflexivity. Qed.
